(** * Capability proxies of FabricObserver: a shallow embedding

    The three C programs [elevated_netstat.c], [elevated_docker_stats.c] and
    [elevated_proc_fd.c] are translated statement by statement into a small
    state-and-halt monad.  A process carries its local memory, its
    descriptor table and the chronological list of the library calls it
    made; everything the kernel decides (the result of a [prctl], of
    [pipe], of [fork], of [execv]) is read from an environment record. *)

From Stdlib Require Import Ascii.
From stdpp Require Import base numbers list strings gmap.

(** ** C strings and fixed-size character arrays *)

(** The terminator of a C string. *)
Definition NUL : ascii := Ascii.zero.

(** The escapes [\n] and [\t] of the C literals. *)
Definition LF : string := String (ascii_of_nat 10) EmptyString.
Definition TAB : string := String (ascii_of_nat 9) EmptyString.

(** An argument or a literal is given by the bytes in front of its
    terminator, so it holds no NUL byte itself. *)
Fixpoint nul_free (s : string) : Prop :=
  match s with
  | EmptyString => True
  | String c s' => c ≠ NUL ∧ nul_free s'
  end.

#[global] Instance nul_free_dec s : Decision (nul_free s).
Proof. induction s; simpl; apply _. Defined.

(** A [char x[n]] array: [None] is a cell that was never written. *)
Abbreviation buffer := (list (option ascii)).

Definition fresh_buffer (n : nat) : buffer := replicate n None.

(** One byte written through a pointer into the array; outside the array
    the write has no defined behaviour ([None]). *)
Definition store (b : buffer) (i : nat) (c : ascii) : option buffer :=
  if decide (i < length b) then Some (<[i := Some c]> b) else None.

(** The copying loop shared by [strcpy] and [strcat]: the bytes of [s] go
    to [b[i]], [b[i+1]], ... and the terminator follows them. *)
Fixpoint write_str (b : buffer) (i : nat) (s : string) : option buffer :=
  match s with
  | EmptyString => store b i NUL
  | String c s' =>
      match store b i c with
      | Some b' => write_str b' (S i) s'
      | None => None
      end
  end.

(** [strlen] on an array: the index of the first NUL; reading an
    unwritten cell or running off the array is not defined. *)
Fixpoint c_strlen (b : buffer) : option nat :=
  match b with
  | Some c :: b' => if decide (c = NUL) then Some 0 else S <$> c_strlen b'
  | _ => None
  end.

(** The string an array holds, as a reader such as [execv] sees it. *)
Fixpoint c_str (b : buffer) : option string :=
  match b with
  | Some c :: b' =>
      if decide (c = NUL) then Some EmptyString else String c <$> c_str b'
  | _ => None
  end.

Definition buf_strcpy (dst : buffer) (src : string) : option buffer :=
  write_str dst 0 src.

(** [strcmp]: the difference of the first pair of bytes that differ, the
    terminator counting as byte 0. *)
Fixpoint str_cmp (a b : string) : Z :=
  match a, b with
  | EmptyString, EmptyString => 0
  | EmptyString, String d _ => (- Z.of_nat (nat_of_ascii d))%Z
  | String c _, EmptyString => Z.of_nat (nat_of_ascii c)
  | String c a', String d b' =>
      if decide (c = d) then str_cmp a' b'
      else (Z.of_nat (nat_of_ascii c) - Z.of_nat (nat_of_ascii d))%Z
  end.

(** ** Capabilities, pointers, descriptors *)

(** The capability identifiers the three programs name. *)
Inductive cap := CAP_DAC_OVERRIDE | CAP_DAC_READ_SEARCH | CAP_SYS_PTRACE.

Inductive cap_flag := CAP_EFFECTIVE | CAP_PERMITTED | CAP_INHERITABLE.

Inductive cap_flag_value := CAP_CLEAR | CAP_SET.

(** The two character arrays a pointer of [elevated_proc_fd.c] may alias. *)
Inductive buf_id := BprocFDParam | Blsbin.

(** A [char*]: null, the address of an immutable string (a literal or an
    argument of the caller), or the address of a local character array,
    whose contents are read when the pointer is followed. *)
Inductive ptr :=
  | PNull
  | PStr (s : string)
  | PBuf (b : buf_id).

(** What a descriptor refers to: something the caller left open, or one
    end of the pipe the process made. *)
Inductive file :=
  | Inherited (n : Z)
  | PipeRead
  | PipeWrite.

(** The library and system calls of the programs, and the reads of the
    caller's argument list, in the order they happen.  An [execv] is
    recorded with the path it was given, the pointer array it was given,
    and the strings it found there. *)
Inductive event :=
  | EvArgc
  | EvArgv (i : nat)
  | EvPrintf (s : string)
  | EvCapGetProc
  | EvCapSetFlag (flag : cap_flag) (caps : list cap) (v : cap_flag_value)
  | EvCapSetProc
  | EvCapFree
  | EvAmbientRaise (c : cap)
  | EvPipe
  | EvFork
  | EvDup2 (oldfd newfd : Z)
  | EvClose (fd : Z)
  | EvExecv (path : string) (argv : list (option ptr)) (args : list string).

(** Behaviour the C standard leaves undefined. *)
Inductive fault :=
  | NullDereference
  | OutOfBoundsRead
  | UninitializedRead
  | UnterminatedRead
  | OutOfBoundsWrite
  | BufferOverflow (b : buf_id).

(** How a process ends: its image is replaced, [main] returns, or it
    runs into undefined behaviour. *)
Inductive outcome :=
  | Replaced (path : string) (args : list string) (fdt : gmap Z file)
  | Exited (status : Z)
  | Undefined (why : fault).

#[global] Instance cap_eq_dec : EqDecision cap.
Proof. solve_decision. Defined.
#[global] Instance cap_flag_eq_dec : EqDecision cap_flag.
Proof. solve_decision. Defined.
#[global] Instance cap_flag_value_eq_dec : EqDecision cap_flag_value.
Proof. solve_decision. Defined.
#[global] Instance buf_id_eq_dec : EqDecision buf_id.
Proof. solve_decision. Defined.
#[global] Instance ptr_eq_dec : EqDecision ptr.
Proof. solve_decision. Defined.
#[global] Instance file_eq_dec : EqDecision file.
Proof. solve_decision. Defined.
#[global] Instance event_eq_dec : EqDecision event.
Proof. solve_decision. Defined.
#[global] Instance fault_eq_dec : EqDecision fault.
Proof. solve_decision. Defined.

(** What the kernel answers.  One record describes one process: after a
    fork the parent and the child differ in [fork_result]. *)
Record Env := {
  (** value returned by [prctl(PR_CAP_AMBIENT, PR_CAP_AMBIENT_RAISE, c, 0, 0)] *)
  ambient_raise : cap → Z;
  (** the descriptors [pipe] stores (read end, write end), [None] when it fails *)
  pipe_result : option (Z * Z);
  (** what the uninitialised [pipe_fds] holds when [pipe] stored nothing *)
  pipe_fds_junk : Z * Z;
  (** value returned by [fork] in this process *)
  fork_result : Z;
  (** whether [execv] of this path replaces the image *)
  execv_ok : string → bool;
}.

(** ** Processes *)

(** The local arrays of a [main] whose characters a pointer can reach. *)
Class Frame (L : Type) := char_array : L → buf_id → option buffer.

(** A [main] without character arrays. *)
#[global] Instance unit_frame : Frame unit := λ _ _, None.

Record proc (L : Type) := Proc {
  locals : L;
  fds : gmap Z file;
  trace : list event;
}.
Arguments Proc {L} _ _ _.
Arguments locals {L} _.
Arguments fds {L} _.
Arguments trace {L} _.

Inductive res (A : Type) :=
  | Ret (a : A)
  | Halt (o : outcome).
Arguments Ret {A} _.
Arguments Halt {A} _.

(** A statement: it runs on a process and either yields a value or ends
    the process. *)
Definition M (L A : Type) : Type := proc L → res A * proc L.

Definition ret {L A} (a : A) : M L A := λ st, (Ret a, st).

Definition bind {L A B} (c : M L A) (k : A → M L B) : M L B :=
  λ st, match c st with
        | (Ret a, st') => k a st'
        | (Halt o, st') => (Halt o, st')
        end.

Declare Scope proc_scope.
Delimit Scope proc_scope with proc.
Notation "x <- c ;; k" := (bind c (λ x, k))
  (at level 100, c at next level, right associativity) : proc_scope.
Notation "c ;; k" := (bind c (λ _, k))
  (at level 100, right associativity) : proc_scope.
Open Scope proc_scope.

Definition undefined {L A} (why : fault) : M L A :=
  λ st, (Halt (Undefined why), st).

(** The process after the calls [t] were added to its record. *)
Definition log {L} (st : proc L) (t : list event) : proc L :=
  Proc (locals st) (fds st) (trace st ++ t).

Definition emit {L} (e : event) : M L unit := λ st, (Ret (), log st [e]).

Definition get_locals {L} : M L L := λ st, (Ret (locals st), st).

Definition set_locals {L} (l : L) : M L unit :=
  λ st, (Ret (), Proc l (fds st) (trace st)).

Definition get_fds {L} : M L (gmap Z file) := λ st, (Ret (fds st), st).

Definition set_fds {L} (t : gmap Z file) : M L unit :=
  λ st, (Ret (), Proc (locals st) t (trace st)).

(** *** The caller's argument list *)

(** [argc]. *)
Definition read_argc {L} (argv : list string) : M L Z :=
  emit EvArgc;; ret (Z.of_nat (length argv)).

(** [argv[i]]: the [argc] arguments are followed by one null pointer;
    behind it the array has ended. *)
Definition read_argv {L} (argv : list string) (i : nat) : M L ptr :=
  emit (EvArgv i);;
  match argv !! i with
  | Some s => ret (PStr s)
  | None => if decide (i = length argv) then ret PNull
            else undefined OutOfBoundsRead
  end.

(** *** Following pointers *)

Definition deref {L} `{!Frame L} (p : ptr) : M L string :=
  match p with
  | PNull => undefined NullDereference
  | PStr s => ret s
  | PBuf b =>
      l <- get_locals;;
      match char_array l b ≫= c_str with
      | Some s => ret s
      | None => undefined UnterminatedRead
      end
  end.

(** The strings of a [char*] array up to its null entry, as [execv]
    reads them. *)
Fixpoint read_vector {L} `{!Frame L} (v : list (option ptr)) : M L (list string) :=
  match v with
  | [] => undefined OutOfBoundsRead
  | None :: _ => undefined UninitializedRead
  | Some PNull :: _ => ret []
  | Some p :: v' =>
      s <- deref p;;
      ss <- read_vector v';;
      ret (s :: ss)
  end.

(** What the array [pipe_fds] holds after [pipe(pipe_fds)]: the two
    descriptors, or what it held before when the call failed. *)
Definition pipe_fds_of (env : Env) : Z * Z :=
  match pipe_result env with
  | Some rw => rw
  | None => pipe_fds_junk env
  end.

(** ** The descriptor table *)

(** [pipe]: two descriptors come to refer to the ends of a new pipe. *)
Definition fd_pipe (result : option (Z * Z)) (t : gmap Z file) : gmap Z file :=
  match result with
  | Some (r, w) => <[w := PipeWrite]> (<[r := PipeRead]> t)
  | None => t
  end.

(** [dup2(oldfd, newfd)]: [newfd] comes to refer to what [oldfd] refers
    to; nothing changes when [oldfd] is not open or [newfd] is negative. *)
Definition fd_dup2 (t : gmap Z file) (oldfd newfd : Z) : gmap Z file :=
  match t !! oldfd with
  | Some f => if decide (0 ≤ newfd)%Z then <[newfd := f]> t else t
  | None => t
  end.

(** [close(fd)]. *)
Definition fd_close (t : gmap Z file) (fd : Z) : gmap Z file := delete fd t.

(** ** Library and system calls *)

Section Calls.
Context (env : Env) {L : Type} `{!Frame L}.

(** [printf(s)]: the call is put on record; what stdio does with its
    buffer when the image is replaced is not part of the model. *)
Definition printf (s : string) : M L unit := emit (EvPrintf s).

(** [cap_get_proc()]: a working copy of the process's capability state. *)
Definition cap_get_proc : M L unit := emit EvCapGetProc.

(** [cap_set_flag(caps, flag, ncap, array, value)] reads the first [ncap]
    entries of the array. *)
Definition cap_set_flag (flag : cap_flag) (ncap : nat) (array : list cap)
    (v : cap_flag_value) : M L unit :=
  if decide (ncap ≤ length array) then emit (EvCapSetFlag flag (take ncap array) v)
  else undefined OutOfBoundsRead.

Definition cap_set_proc : M L unit := emit EvCapSetProc.

Definition cap_free : M L unit := emit EvCapFree.

(** [prctl(PR_CAP_AMBIENT, PR_CAP_AMBIENT_RAISE, c, 0, 0)]. *)
Definition prctl_ambient_raise (c : cap) : M L Z :=
  emit (EvAmbientRaise c);; ret (ambient_raise env c).

(** [pipe(pipe_fds)]; the value is what [pipe_fds] holds afterwards. *)
Definition pipe : M L (Z * Z) :=
  emit EvPipe;;
  t <- get_fds;;
  set_fds (fd_pipe (pipe_result env) t);;
  ret (pipe_fds_of env).

Definition fork : M L Z := emit EvFork;; ret (fork_result env).

(** [dup2(oldfd, newfd)]; the value is -1 when nothing was done. *)
Definition dup2 (oldfd newfd : Z) : M L Z :=
  emit (EvDup2 oldfd newfd);;
  t <- get_fds;;
  set_fds (fd_dup2 t oldfd newfd);;
  if decide (is_Some (t !! oldfd) ∧ (0 ≤ newfd)%Z) then ret newfd else ret (-1)%Z.

(** [close(fd)]. *)
Definition close (fd : Z) : M L Z :=
  emit (EvClose fd);;
  t <- get_fds;;
  set_fds (fd_close t fd);;
  if decide (is_Some (t !! fd)) then ret 0%Z else ret (-1)%Z.

(** [execv(path, argv)]: on success the process continues as the new
    program with its descriptor table; on failure the call returns -1. *)
Definition execv (path : ptr) (argv : list (option ptr)) : M L Z :=
  p <- deref path;;
  args <- read_vector argv;;
  emit (EvExecv p argv args);;
  if execv_ok env p then
    t <- get_fds;; λ st, (Halt (Replaced p args t), st)
  else ret (-1)%Z.

(** [set_ambient_caps]: the three files hold the same function.
<<
    for (i = 0; i < num_elem; i++) {
        if (prctl(PR_CAP_AMBIENT, PR_CAP_AMBIENT_RAISE, newcaps[i], 0, 0)) {
            printf("Fail!\n");
            return;
        }
    }
>>
    [todo] counts the iterations that remain, [num_elem - i]. *)
Fixpoint set_ambient_caps_loop (newcaps : list cap) (i todo : nat) : M L unit :=
  match todo with
  | O => ret ()
  | S todo' =>
      match newcaps !! i with
      | None => undefined OutOfBoundsRead
      | Some c =>
          r <- prctl_ambient_raise c;;
          if decide (r ≠ 0%Z) then printf ("Fail!" +:+ LF)
          else set_ambient_caps_loop newcaps (S i) todo'
      end
  end.

Definition set_ambient_caps (newcaps : list cap) (num_elem : nat) : M L unit :=
  set_ambient_caps_loop newcaps 0 num_elem.

(** The block every [main] has: the capabilities go into the
    inheritable set, then into the ambient set.
<<
    cap_t caps = cap_get_proc();
    cap_set_flag(caps, CAP_INHERITABLE, 2, newcaps, CAP_SET);
    cap_set_proc(caps);
    cap_free(caps);
    set_ambient_caps(newcaps, sizeof(newcaps) / sizeof(newcaps[0]));
>> *)
Definition elevate (newcaps : list cap) : M L unit :=
  cap_get_proc;;
  cap_set_flag CAP_INHERITABLE 2 newcaps CAP_SET;;
  cap_set_proc;;
  cap_free;;
  set_ambient_caps newcaps (length newcaps).

End Calls.

(** *** What the blocks above put on record *)

(** The calls of [set_ambient_caps] on the capabilities [cs]: one raise
    after the other up to the first that is refused, which is followed by
    the message. *)
Fixpoint ambient_trace (env : Env) (cs : list cap) : list event :=
  match cs with
  | [] => []
  | c :: cs' =>
      EvAmbientRaise c ::
        (if decide (ambient_raise env c ≠ 0%Z) then [EvPrintf ("Fail!" +:+ LF)]
         else ambient_trace env cs')
  end.

(** The calls of [elevate]. *)
Definition elevate_trace (env : Env) (cs : list cap) : list event :=
  [EvCapGetProc; EvCapSetFlag CAP_INHERITABLE (take 2 cs) CAP_SET;
   EvCapSetProc; EvCapFree] ++ ambient_trace env cs.

(** [execv] once its path and its vector have been read. *)
Definition launch {L} (env : Env) (path : string) (argv : list (option ptr))
    (args : list string) (st : proc L) : res Z * proc L :=
  if execv_ok env path
  then (Halt (Replaced path args (fds st)), log st [EvExecv path argv args])
  else (Ret (-1)%Z, log st [EvExecv path argv args]).

(** Control that comes back from [execv] reaches the closing brace of
    [main]. *)
Definition falls_off {L} (r : res Z * proc L) : res Z * proc L :=
  match r with
  | (Ret _, st) => (Ret 0%Z, st)
  | (Halt o, st) => (Halt o, st)
  end.

(** The calls between the capability block and [execv] in
    [elevated_proc_fd.c], in the parent and in the child of the fork. *)
Definition compose_calls (env : Env) : list event :=
  let pf := pipe_fds_of env in
  if decide (fork_result env ≠ 0%Z)
  then [EvPipe; EvFork; EvDup2 pf.2 1; EvClose pf.2; EvClose pf.1]
  else [EvPipe; EvFork; EvDup2 pf.1 0; EvClose pf.1; EvClose pf.2].

(** The descriptor table these calls leave. *)
Definition compose_fds (env : Env) (t : gmap Z file) : gmap Z file :=
  let pf := pipe_fds_of env in
  let t' := fd_pipe (pipe_result env) t in
  if decide (fork_result env ≠ 0%Z)
  then fd_close (fd_close (fd_dup2 t' pf.2 1) pf.2) pf.1
  else fd_close (fd_close (fd_dup2 t' pf.1 0) pf.1) pf.2.

(** The exit status of a process whose [main] returned [r]. *)
Definition exit_status (r : Z) : Z := Z.land r 255.

(** How a process ends once its [main] is through. *)
Definition ended {L} (r : res Z * proc L) : outcome * proc L :=
  match r with
  | (Ret z, st) => (Exited (exit_status z), st)
  | (Halt o, st) => (o, st)
  end.

(** One process from start to end: its outcome and its final state. *)
Definition run_main {L} (main : M L Z) (l0 : L) (fdt0 : gmap Z file)
    : outcome * proc L :=
  ended (main (Proc l0 fdt0 [])).

(** ** elevated_netstat.c *)

Module elevated_netstat.

(** [cap_value_t newcaps[2] = {CAP_DAC_READ_SEARCH, CAP_SYS_PTRACE};] *)
Definition newcaps : list cap := [CAP_DAC_READ_SEARCH; CAP_SYS_PTRACE].

(** [char *param[] = {"netstat", "-tnap", NULL};] *)
Definition param : list (option ptr) :=
  [Some (PStr "netstat"); Some (PStr "-tnap"); Some PNull].

(** [int main()]: control that comes back from [execv] reaches the
    closing brace of [main], which returns 0. *)
Definition main (env : Env) : M unit Z :=
  elevate env newcaps;;
  execv env (PStr "/bin/netstat") param;;
  ret 0%Z.

End elevated_netstat.

(** ** elevated_docker_stats.c *)

Module elevated_docker_stats.

(** [cap_value_t newcaps[2] = { CAP_DAC_READ_SEARCH,CAP_DAC_OVERRIDE };] *)
Definition newcaps : list cap := [CAP_DAC_READ_SEARCH; CAP_DAC_OVERRIDE].

(** ["table {{.Container}}\t{{.Name}}\t{{.CPUPerc}}\t{{.MemUsage}}"] *)
Definition format : string :=
  "table {{.Container}}" +:+ TAB +:+ "{{.Name}}" +:+ TAB +:+
  "{{.CPUPerc}}" +:+ TAB +:+ "{{.MemUsage}}".

(** [char* param[] = { "docker", "stats", "--no-stream", "--format",
    "table {{.Container}}\t{{.Name}}\t{{.CPUPerc}}\t{{.MemUsage}}", NULL };] *)
Definition param : list (option ptr) :=
  [Some (PStr "docker"); Some (PStr "stats"); Some (PStr "--no-stream");
   Some (PStr "--format"); Some (PStr format); Some PNull].

Definition main (env : Env) : M unit Z :=
  elevate env newcaps;;
  execv env (PStr "/usr/bin/docker") param;;
  ret 0%Z.

End elevated_docker_stats.

(** ** elevated_proc_fd.c *)

Module elevated_proc_fd.

(** The arrays of [main]:
    [char* ls_args[64]; char procFDParam[32]; char lsbin[32];] *)
Record frame := Frm {
  ls_args : list (option ptr);
  procFDParam : buffer;
  lsbin : buffer;
}.

Definition frame0 : frame :=
  Frm (replicate 64 None) (fresh_buffer 32) (fresh_buffer 32).

Definition get_buf (l : frame) (b : buf_id) : buffer :=
  match b with BprocFDParam => procFDParam l | Blsbin => lsbin l end.

Definition set_buf (l : frame) (b : buf_id) (x : buffer) : frame :=
  match b with
  | BprocFDParam => Frm (ls_args l) x (lsbin l)
  | Blsbin => Frm (ls_args l) (procFDParam l) x
  end.

#[global] Instance frame_frame : Frame frame := λ l b, Some (get_buf l b).

(** The strings of a vector whose pointers lead into the frame [l]. *)
Fixpoint vector_strings (l : frame) (v : list (option ptr)) : option (list string) :=
  match v with
  | Some PNull :: _ => Some []
  | Some (PStr s) :: v' => cons s <$> vector_strings l v'
  | Some (PBuf b) :: v' =>
      match c_str (get_buf l b), vector_strings l v' with
      | Some s, Some ss => Some (s :: ss)
      | _, _ => None
      end
  | _ => None
  end.

(** [lsbin] and [ls_args] can be handed to [execv]. *)
Definition exec_ready (l : frame) (path : string) (args : list string) : Prop :=
  c_str (lsbin l) = Some path ∧ vector_strings l (ls_args l) = Some args.

(** [procFDParam] after the three copies of the branch for a process
    id [P], when none of them leaves the array. *)
Definition proc_path (P : string) : option buffer :=
  b1 ← buf_strcpy (fresh_buffer 32) "/proc/";
  n ← c_strlen b1;
  b2 ← write_str b1 n P;
  m ← c_strlen b2;
  write_str b2 m "/fd".

(** [lsbin] after [strcpy(lsbin, "/bin/ls")], and after
    [strcpy(lsbin, "/usr/bin/lsof")] on top of it. *)
Definition lsbin_ls : buffer :=
  (Some <$> String.list_ascii_of_string "/bin/ls") ++ Some NUL :: replicate 24 None.

Definition lsbin_lsof : buffer :=
  (Some <$> String.list_ascii_of_string "/usr/bin/lsof") ++
  Some NUL :: replicate 18 None.

(** [procFDParam] after [strcpy(procFDParam, "/proc/")]. *)
Definition after_proc : buffer :=
  (Some <$> String.list_ascii_of_string "/proc/") ++ Some NUL :: replicate 25 None.

(** [ls_args] at the end of either branch. *)
Definition ls_vector : list (option ptr) :=
  [Some (PStr "ls"); Some (PBuf BprocFDParam); Some PNull] ++ replicate 61 None.

Definition lsof_vector : list (option ptr) :=
  [Some (PBuf Blsbin); Some PNull] ++ replicate 62 None.

(** [strcpy(dst, src)] into one of the two arrays. *)
Definition strcpy (dst : buf_id) (src : ptr) : M frame unit :=
  s <- deref src;;
  l <- get_locals;;
  match buf_strcpy (get_buf l dst) s with
  | Some x => set_locals (set_buf l dst x)
  | None => undefined (BufferOverflow dst)
  end.

(** [strcat(dst, src)]: the copy starts at the terminator of [dst]. *)
Definition strcat (dst : buf_id) (src : ptr) : M frame unit :=
  s <- deref src;;
  l <- get_locals;;
  match c_strlen (get_buf l dst) with
  | None => undefined UnterminatedRead
  | Some n =>
      match write_str (get_buf l dst) n s with
      | Some x => set_locals (set_buf l dst x)
      | None => undefined (BufferOverflow dst)
      end
  end.

(** [strcmp(a, b)]. *)
Definition strcmp (a b : ptr) : M frame Z :=
  x <- deref a;;
  y <- deref b;;
  ret (str_cmp x y).

(** [ls_args[i] = p;] *)
Definition set_ls_args (i : nat) (p : ptr) : M frame unit :=
  l <- get_locals;;
  if decide (i < length (ls_args l)) then
    set_locals (Frm (<[i := Some p]> (ls_args l)) (procFDParam l) (lsbin l))
  else undefined OutOfBoundsWrite.

(** [cap_value_t newcaps[2] = { CAP_DAC_READ_SEARCH, CAP_SYS_PTRACE };] *)
Definition newcaps : list cap := [CAP_DAC_READ_SEARCH; CAP_SYS_PTRACE].

(** [char* wc_args[] = { "wc", "-l", NULL };] *)
Definition wc_args : list (option ptr) :=
  [Some (PStr "wc"); Some (PStr "-l"); Some PNull].

Definition usage : string :=
  "You have to supply one argument; a process id for use in ls or -1 which would mean run lsof.".

Section Main.
Context (env : Env) (argv : list string).

(** From [strcpy(lsbin, "/bin/ls")] to the end of the [if]/[else] on
    [strcmp(argv[1], "-1")]: the listing command is laid out in
    [lsbin], [procFDParam] and [ls_args]. *)
Definition build_command : M frame unit :=
  strcpy Blsbin (PStr "/bin/ls");;
  a <- read_argv argv 1;;
  c <- strcmp a (PStr "-1");;
  if decide (c ≠ 0%Z) then
    strcpy BprocFDParam (PStr "/proc/");;
    a <- read_argv argv 1;;
    strcat BprocFDParam a;;
    strcat BprocFDParam (PStr "/fd");;
    set_ls_args 0 (PStr "ls");;
    set_ls_args 1 (PBuf BprocFDParam);;
    set_ls_args 2 PNull
  else
    strcpy Blsbin (PStr "/usr/bin/lsof");;
    set_ls_args 0 (PBuf Blsbin);;
    set_ls_args 1 PNull.

(** From [pipe(pipe_fds)] to the closing brace of [main]. *)
Definition pipe_compose : M frame Z :=
  pipe_fds <- pipe env;;
  pid <- fork env;;
  if decide (pid ≠ 0%Z) then
    dup2 (snd pipe_fds) 1;;
    close (snd pipe_fds);;
    close (fst pipe_fds);;
    l <- get_locals;;
    execv env (PBuf Blsbin) (ls_args l);;
    ret 0%Z
  else
    dup2 (fst pipe_fds) 0;;
    close (fst pipe_fds);;
    close (snd pipe_fds);;
    execv env (PStr "/usr/bin/wc") wc_args;;
    ret 0%Z.

(** [int main(int argc, char* argv[])]. *)
Definition main : M frame Z :=
  argc <- read_argc argv;;
  if decide (argc < 1)%Z then
    printf usage;;
    ret (-1)%Z
  else
    build_command;;
    elevate env newcaps;;
    pipe_compose.

End Main.

End elevated_proc_fd.

(** ** The three proxies side by side *)

Inductive variant := Netstat | DockerStats | ProcFd.

(** A run, reduced to what can be seen from outside: how the process
    ended, the calls it made, and its descriptor table at the end. *)
Definition observe {L} (r : outcome * proc L) : outcome * list event * gmap Z file :=
  (r.1, trace r.2, fds r.2).

Definition run (v : variant) (env : Env) (argv : list string) (fdt0 : gmap Z file)
    : outcome * list event * gmap Z file :=
  match v with
  | Netstat => observe (run_main (elevated_netstat.main env) () fdt0)
  | DockerStats => observe (run_main (elevated_docker_stats.main env) () fdt0)
  | ProcFd =>
      observe (run_main (elevated_proc_fd.main env argv) elevated_proc_fd.frame0 fdt0)
  end.

(** The capability set of each variant. *)
Definition caps_of (v : variant) : list cap :=
  match v with
  | Netstat => elevated_netstat.newcaps
  | DockerStats => elevated_docker_stats.newcaps
  | ProcFd => elevated_proc_fd.newcaps
  end.

(** ** Vocabulary for statements about runs *)

(** Reads of the caller's argument list. *)
Definition is_arg (e : event) : bool :=
  match e with EvArgc | EvArgv _ => true | _ => false end.

(** Calls of the capability block. *)
Definition is_cap (e : event) : bool :=
  match e with
  | EvCapGetProc | EvCapSetFlag _ _ _ | EvCapSetProc | EvCapFree
  | EvAmbientRaise _ => true
  | _ => false
  end.

Definition is_raise (e : event) : bool :=
  match e with EvAmbientRaise _ => true | _ => false end.

(** Calls that wire the pipe and replace the image. *)
Definition is_launch (e : event) : bool :=
  match e with
  | EvPipe | EvFork | EvDup2 _ _ | EvClose _ | EvExecv _ _ _ => true
  | _ => false
  end.

Definition is_execv (e : event) : bool :=
  match e with EvExecv _ _ _ => true | _ => false end.

(** In [t], every call of kind [P] comes before every call of kind [Q]. *)
Definition precedes (P Q : event → bool) (t : list event) : Prop :=
  ∀ i j a b, t !! i = Some a → t !! j = Some b → P a = true → Q b = true → i < j.

(** The pointer array [v] has its null entry at index [n], behind [n]
    pointers that are not null. *)
Definition terminated (v : list (option ptr)) (n : nat) : Prop :=
  v !! n = Some (Some PNull) ∧
  ∀ i, i < n → ∃ p, v !! i = Some (Some p) ∧ p ≠ PNull.

Definition has_slash (s : string) : bool :=
  existsb (λ c, bool_decide (c = "/"%char)) (String.list_ascii_of_string s).

(** The part of a path behind its last slash. *)
Fixpoint basename (s : string) : string :=
  match s with
  | EmptyString => EmptyString
  | String c s' =>
      if has_slash s' then basename s'
      else if decide (c = "/"%char) then s' else s
  end.

(** An [execv] call handed a vector of at most 64 entries that ends in a
    null entry and starts with the name of the command, or its path. *)
Definition well_formed_call (path : string) (argv : list (option ptr))
    (args : list string) : Prop :=
  length argv ≤ 64 ∧ terminated argv (length args) ∧
  (args !! 0 = Some (basename path) ∨ args !! 0 = Some path).

(** The two ways a run can go: it stops while still handling its
    arguments, or it goes through the capability block and the wiring and
    ends in one [execv]. *)
Definition stops_early (r : outcome * list event * gmap Z file) : Prop :=
  Forall (λ e, is_cap e = false ∧ is_launch e = false) r.1.2 ∧
  (r.1.1 = Exited 255 ∨ ∃ f, r.1.1 = Undefined f).

Definition reaches_execv (env : Env) (caps : list cap)
    (r : outcome * list event * gmap Z file) : Prop :=
  ∃ reads wiring path argv args,
    r.1.1 = (if execv_ok env path then Replaced path args r.2 else Exited 0) ∧
    r.1.2 = reads ++ elevate_trace env caps ++ wiring ++ [EvExecv path argv args] ∧
    Forall (λ e, is_arg e = true) reads ∧
    Forall (λ e, is_launch e = true ∧ is_execv e = false) wiring ∧
    well_formed_call path argv args.

(** A process id as callers are meant to pass it: one or more decimal
    digits. *)
Definition spec_valid_pid (s : string) : bool :=
  match s with
  | EmptyString => false
  | _ => forallb (λ c, (48 <=? nat_of_ascii c) && (nat_of_ascii c <=? 57))
           (String.list_ascii_of_string s)
  end.

(** The [execv] call a process of [elevated_proc_fd.c] ends in: the
    listing command in the parent of the fork, [wc -l] in the child. *)
Definition branch_execv (env : Env) (l : elevated_proc_fd.frame) (path : string)
    (args : list string) : event :=
  if decide (fork_result env ≠ 0%Z)
  then EvExecv path (elevated_proc_fd.ls_args l) args
  else EvExecv "/usr/bin/wc" elevated_proc_fd.wc_args ["wc"; "-l"].

(** What becomes of the process at that call. *)
Definition branch_outcome (env : Env) (fdt : gmap Z file) (path : string)
    (args : list string) : outcome :=
  if decide (fork_result env ≠ 0%Z)
  then (if execv_ok env path then Replaced path args fdt else Exited 0)
  else (if execv_ok env "/usr/bin/wc" then Replaced "/usr/bin/wc" ["wc"; "-l"] fdt
        else Exited 0).

(** A run of [elevated_proc_fd.c] that got past the command builder with
    the frame [l], having read its arguments as [reads] records: the
    capability block, the pipe and the fork follow, and the branch ends in
    [execv]. *)
Definition past_builder (env : Env) (l : elevated_proc_fd.frame)
    (fdt0 : gmap Z file) (reads : list event) (path : string) (args : list string)
    : outcome * proc elevated_proc_fd.frame :=
  (branch_outcome env (compose_fds env fdt0) path args,
   Proc l (compose_fds env fdt0)
     ((EvArgc :: reads) ++ elevate_trace env elevated_proc_fd.newcaps ++
      compose_calls env ++ [branch_execv env l path args])).

(** The descriptor table of a process started with the descriptors
    [open] left open by its caller. *)
Definition inherited (open : list Z) : gmap Z file :=
  list_to_map ((λ n, (n, Inherited n)) <$> open).

(** The same kernel as seen by the child of the fork. *)
Definition child_of (env : Env) : Env :=
  {| ambient_raise := ambient_raise env;
     pipe_result := pipe_result env;
     pipe_fds_junk := pipe_fds_junk env;
     fork_result := 0%Z;
     execv_ok := execv_ok env |}.

(** A kernel that grants everything, seen from the parent of the fork. *)
Definition env_ok : Env :=
  {| ambient_raise := λ _, 0%Z;
     pipe_result := Some (3, 4)%Z;
     pipe_fds_junk := (0, 0)%Z;
     fork_result := 4242%Z;
     execv_ok := λ _, true |}.

(** A kernel without ambient capabilities: every raise is refused. *)
Definition env_refused : Env :=
  {| ambient_raise := λ _, (-1)%Z;
     pipe_result := Some (3, 4)%Z;
     pipe_fds_junk := (0, 0)%Z;
     fork_result := 4242%Z;
     execv_ok := λ _, true |}.

(** A system on which no target binary can be executed. *)
Definition env_noexec : Env :=
  {| ambient_raise := λ _, 0%Z;
     pipe_result := Some (3, 4)%Z;
     pipe_fds_junk := (0, 0)%Z;
     fork_result := 4242%Z;
     execv_ok := λ _, false |}.

(** The descriptors a shell leaves open. *)
Definition stdio : gmap Z file := inherited [0; 1; 2]%Z.

(** A decimal argument of 23 bytes. *)
Definition long_pid : string := "12345678901234567890123".

(** ** Vocabulary for further properties *)

(** The capabilities a run tried to raise, in the order of the calls. *)
Definition raised (t : list event) : list cap :=
  omap (λ e, match e with EvAmbientRaise c => Some c | _ => None end) t.

(** The kernel grants the raise of [c]. *)
Definition granted (env : Env) (c : cap) : Prop := ambient_raise env c = 0%Z.

(** The same kernel with another answer of [fork]. *)
Definition with_fork (env : Env) (pid : Z) : Env :=
  {| ambient_raise := ambient_raise env;
     pipe_result := pipe_result env;
     pipe_fds_junk := pipe_fds_junk env;
     fork_result := pid;
     execv_ok := execv_ok env |}.

(** A kernel out of descriptors: [pipe] fails and [pipe_fds] keeps the
    two numbers it happened to hold. *)
Definition env_nopipe : Env :=
  {| ambient_raise := λ _, 0%Z;
     pipe_result := None;
     pipe_fds_junk := (7, 8)%Z;
     fork_result := 4242%Z;
     execv_ok := λ _, true |}.

(** A kernel whose [pipe] hands out descriptors 0 and 1, as it does when
    the caller left both closed. *)
Definition env_low_pipe : Env :=
  {| ambient_raise := λ _, 0%Z;
     pipe_result := Some (0, 1)%Z;
     pipe_fds_junk := (0, 0)%Z;
     fork_result := 4242%Z;
     execv_ok := λ _, true |}.

(** A kernel that grants the raise of [CAP_DAC_READ_SEARCH] only. *)
Definition env_second_refused : Env :=
  {| ambient_raise := λ c, match c with CAP_DAC_READ_SEARCH => 0%Z | _ => (-1)%Z end;
     pipe_result := Some (3, 4)%Z;
     pipe_fds_junk := (0, 0)%Z;
     fork_result := 4242%Z;
     execv_ok := λ _, true |}.

(** The binaries a variant may turn into. *)
Definition targets (v : variant) : list string :=
  match v with
  | Netstat => ["/bin/netstat"]
  | DockerStats => ["/usr/bin/docker"]
  | ProcFd => ["/bin/ls"; "/usr/bin/lsof"; "/usr/bin/wc"]
  end.

(** The runs of [elevated_proc_fd.c] in closed form, by the shape of the
    argument list: no argument list, the program name alone, the sentinel,
    a path that fits, a path that does not.  (A path array that was
    written in full always holds a string; the inner [None] does not
    occur.) *)
Definition proc_fd_table (env : Env) (argv : list string) (fdt0 : gmap Z file)
    : outcome * list event * gmap Z file :=
  match argv with
  | [] => (Exited 255, [EvArgc; EvPrintf elevated_proc_fd.usage], fdt0)
  | [_] => (Undefined NullDereference, [EvArgc; EvArgv 1], fdt0)
  | _ :: P :: _ =>
      if decide (str_cmp P "-1" = 0%Z) then
        observe (past_builder env
                   (elevated_proc_fd.Frm elevated_proc_fd.lsof_vector (fresh_buffer 32)
                      elevated_proc_fd.lsbin_lsof)
                   fdt0 [EvArgv 1] "/usr/bin/lsof" ["/usr/bin/lsof"])
      else
        match elevated_proc_fd.proc_path P with
        | Some b =>
            match c_str b with
            | Some s =>
                observe (past_builder env
                           (elevated_proc_fd.Frm elevated_proc_fd.ls_vector b
                              elevated_proc_fd.lsbin_ls)
                           fdt0 [EvArgv 1; EvArgv 1] "/bin/ls" ["ls"; s])
            | None =>
                (Undefined (BufferOverflow BprocFDParam),
                 [EvArgc; EvArgv 1; EvArgv 1], fdt0)
            end
        | None =>
            (Undefined (BufferOverflow BprocFDParam), [EvArgc; EvArgv 1; EvArgv 1], fdt0)
        end
  end.

(** The descriptor a branch of the fork redirects: standard output in the
    parent, standard input in the child. *)
Definition redirected (env : Env) : Z :=
  if decide (fork_result env ≠ 0%Z) then 1%Z else 0%Z.

(** The message of [set_ambient_caps]. *)
Definition fail_message : event := EvPrintf ("Fail!" +:+ LF).

(** A call that neither raises a capability nor prints that message. *)
Definition quiet (e : event) : Prop := is_raise e = false ∧ e ≠ fail_message.

(** The variants that wrap a single command. *)
Definition single_command (v : variant) : Prop := v = Netstat ∨ v = DockerStats.

(** ** A run in which a raise is refused *)

(** The index of the first capability of [cs] whose raise the kernel
    refuses. *)
Fixpoint first_refused (env : Env) (cs : list cap) : option nat :=
  match cs with
  | [] => None
  | c :: cs' =>
      if decide (ambient_raise env c ≠ 0%Z) then Some 0
      else S <$> first_refused env cs'
  end.

(** The inputs on which a variant gets as far as its capability block:
    any for the netstat and docker-stats proxies; for the fd-count proxy an
    argument list whose [argv[1]] is a string [P] of at most 22 bytes (the
    sentinel ["-1"] included). *)
Definition reaches_elevator (v : variant) (argv : list string) (P : string) : Prop :=
  match v with
  | ProcFd => argv !! 1 = Some P ∧ nul_free P ∧ String.length P ≤ 22
  | _ => True
  end.

(** The reads of the argument list that come before the capability
    block: [argc], [argv[1]] for the comparison and, for a process id,
    [argv[1]] again for the copy. *)
Definition argument_reads (v : variant) (P : string) : list event :=
  match v with
  | ProcFd => EvArgc :: EvArgv 1 :: (if decide (P = "-1") then [] else [EvArgv 1])
  | _ => []
  end.

(** The calls between the capability block and [execv]. *)
Definition wiring_calls (v : variant) (env : Env) : list event :=
  match v with
  | ProcFd => compose_calls env
  | _ => []
  end.

(** The command a variant wraps, as its [execv] call names it: the path,
    the pointer array and the strings read from it. *)
Definition wrapped_command (v : variant) (env : Env) (P : string)
    : string * list (option ptr) * list string :=
  match v with
  | Netstat => ("/bin/netstat", elevated_netstat.param, ["netstat"; "-tnap"])
  | DockerStats =>
      ("/usr/bin/docker", elevated_docker_stats.param,
       ["docker"; "stats"; "--no-stream"; "--format"; elevated_docker_stats.format])
  | ProcFd =>
      if decide (fork_result env ≠ 0%Z) then
        if decide (P = "-1")
        then ("/usr/bin/lsof", elevated_proc_fd.lsof_vector, ["/usr/bin/lsof"])
        else ("/bin/ls", elevated_proc_fd.ls_vector, ["ls"; "/proc/" +:+ P +:+ "/fd"])
      else ("/usr/bin/wc", elevated_proc_fd.wc_args, ["wc"; "-l"])
  end.

(** ** Facts about character arrays *)

Section Buffers.
Implicit Types (b tail : buffer) (cs : list ascii) (s : string).

Abbreviation chars := String.list_ascii_of_string.

Lemma chars_length s : length (chars s) = String.length s.
Proof. induction s as [|c s IH]; simpl; [done | by rewrite IH]. Qed.

Lemma chars_app s t : chars (s +:+ t) = chars s ++ chars t.
Proof. induction s as [|c s IH]; simpl; [done | by rewrite IH]. Qed.

Lemma nul_free_chars s : nul_free s ↔ NUL ∉ chars s.
Proof.
  induction s as [|c s IH]; simpl.
  - split; [intros _; apply not_elem_of_nil | done].
  - rewrite not_elem_of_cons, IH. split; intros [? ?]; split; congruence.
Qed.

Lemma store_app cs tail c :
  store ((Some <$> cs) ++ tail) (length cs) c =
    match tail with
    | [] => None
    | _ :: tail' => Some ((Some <$> (cs ++ [c])) ++ tail')
    end.
Proof.
  unfold store. rewrite length_app, length_fmap.
  destruct tail as [|x tail']; simpl.
  - rewrite decide_False by lia. done.
  - rewrite decide_True by lia. f_equal.
    rewrite fmap_app, <- app_assoc. simpl.
    rewrite insert_app_r_alt by (rewrite length_fmap; lia).
    by rewrite length_fmap, Nat.sub_diag.
Qed.

(** Appending at the end of the written part: the copy succeeds exactly
    when the string and its terminator fit into what is left. *)
Lemma write_str_app s : ∀ cs tail,
  write_str ((Some <$> cs) ++ tail) (length cs) s =
    if decide (String.length s < length tail)
    then Some ((Some <$> (cs ++ chars s)) ++ Some NUL :: drop (S (String.length s)) tail)
    else None.
Proof.
  induction s as [|c s IH]; intros cs tail; simpl.
  - rewrite store_app. destruct tail as [|x tail']; simpl; [done|].
    rewrite drop_0, app_nil_r. by rewrite fmap_app, <- app_assoc.
  - rewrite store_app. destruct tail as [|x tail']; simpl; [done|].
    replace (S (length cs)) with (length (cs ++ [c]))
      by (rewrite length_app; simpl; lia).
    rewrite IH, <- app_assoc. simpl.
    repeat case_decide; done || lia.
Qed.

Lemma store_length b i c b' : store b i c = Some b' → length b' = length b.
Proof.
  unfold store. case_decide; [|done]. intros [= <-]. apply length_insert.
Qed.

Lemma write_str_length s : ∀ b i b',
  write_str b i s = Some b' → length b' = length b.
Proof.
  induction s as [|c s IH]; intros b i b'; simpl.
  - apply store_length.
  - destruct (store b i c) as [b1|] eqn:E; [|done]. intros H.
    rewrite (IH _ _ _ H). by apply store_length in E.
Qed.

Lemma c_strlen_app cs tail :
  NUL ∉ cs → c_strlen ((Some <$> cs) ++ Some NUL :: tail) = Some (length cs).
Proof.
  induction cs as [|c cs IH]; csimpl; intros Hn; [done|].
  apply not_elem_of_cons in Hn as [Hc Hn].
  case_decide; [congruence|]. by rewrite IH.
Qed.

Lemma c_str_app cs tail :
  NUL ∉ cs →
  c_str ((Some <$> cs) ++ Some NUL :: tail) = Some (String.string_of_list_ascii cs).
Proof.
  induction cs as [|c cs IH]; csimpl; intros Hn; [done|].
  apply not_elem_of_cons in Hn as [Hc Hn].
  case_decide; [congruence|]. by rewrite IH.
Qed.

(** An array written up to a terminator holds a string, wherever its
    first NUL is. *)
Lemma c_strlen_written cs tail :
  ∃ n, c_strlen ((Some <$> cs) ++ Some NUL :: tail) = Some n ∧ n ≤ length cs
       ∧ NUL ∉ take n cs.
Proof.
  induction cs as [|c cs (n & IH & Hle & Hnn)]; csimpl.
  - exists 0. split_and!; [done|lia|apply not_elem_of_nil].
  - destruct (decide (c = NUL)).
    + exists 0. split_and!; [done|lia|apply not_elem_of_nil].
    + exists (S n). rewrite IH. split_and!; [done|lia|].
      csimpl. by apply not_elem_of_cons.
Qed.

Lemma c_str_written cs tail :
  is_Some (c_str ((Some <$> cs) ++ Some NUL :: tail)).
Proof.
  induction cs as [|c cs [x IH]]; csimpl; [done|].
  destruct (decide (c = NUL)); [done|]. rewrite IH. done.
Qed.

Lemma nat_of_ascii_inj c d : nat_of_ascii c = nat_of_ascii d → c = d.
Proof.
  intros H. rewrite <- (ascii_nat_embedding c), <- (ascii_nat_embedding d).
  by rewrite H.
Qed.

(** On strings without an inner NUL, [strcmp] is 0 on equal strings only. *)
Lemma str_cmp_eq s : ∀ t, nul_free s → nul_free t → str_cmp s t = 0%Z ↔ s = t.
Proof.
  induction s as [|c s IH]; intros [|d t]; simpl; intros Hs Ht.
  - done.
  - split; [|done]. intros H. destruct Ht as [Hd _]. destruct Hd.
    apply nat_of_ascii_inj. change (nat_of_ascii NUL) with 0. lia.
  - split; [|done]. intros H. destruct Hs as [Hc _]. destruct Hc.
    apply nat_of_ascii_inj. change (nat_of_ascii NUL) with 0. lia.
  - destruct Hs as [_ Hs], Ht as [_ Ht].
    destruct (decide (c = d)) as [->|Hne].
    + rewrite IH by done. split; [by intros -> | by intros [= ->]].
    + split; [|by intros [= ? ?]]. intros H. destruct Hne.
      apply nat_of_ascii_inj. lia.
Qed.
End Buffers.

(** ** Facts about single calls *)

Section Steps.
Context (env : Env) {L : Type} `{!Frame L}.
Implicit Types (st : proc L).

Lemma log_nil st : log st [] = st.
Proof. destruct st. unfold log. simpl. by rewrite app_nil_r. Qed.

Lemma log_log st t u : log (log st t) u = log st (t ++ u).
Proof. unfold log. simpl. by rewrite app_assoc. Qed.

Lemma set_ambient_caps_loop_run cs : ∀ todo i st,
  i + todo = length cs →
  set_ambient_caps_loop env cs i todo st =
    (Ret (), log st (ambient_trace env (drop i cs))).
Proof.
  induction todo as [|todo IH]; intros i st Hlen; simpl.
  - rewrite drop_ge by lia. simpl. by rewrite log_nil.
  - destruct (lookup_lt_is_Some_2 cs i) as [c Hc]; [lia|].
    rewrite Hc, (drop_S _ _ _ Hc). simpl.
    unfold bind, prctl_ambient_raise, bind, emit, ret, printf, emit.
    case_decide.
    + by rewrite log_log.
    + rewrite IH by lia. by rewrite log_log.
Qed.

Lemma elevate_run cs st :
  2 ≤ length cs →
  elevate env cs st = (Ret (), log st (elevate_trace env cs)).
Proof.
  intros Hlen. unfold elevate, set_ambient_caps, cap_set_flag.
  rewrite decide_True by done.
  unfold bind, cap_get_proc, cap_set_proc, cap_free, emit.
  rewrite set_ambient_caps_loop_run by done.
  by rewrite !log_log, drop_0.
Qed.

(** A vector of literals in front of its null entry. *)
Lemma read_vector_literals (ss : list string) rest st :
  read_vector ((Some ∘ PStr <$> ss) ++ Some PNull :: rest) st = (Ret ss, st).
Proof.
  induction ss as [|s ss IH]; csimpl; [done|].
  unfold bind. simpl. by rewrite IH.
Qed.

Lemma execv_literals path (ss : list string) rest st :
  execv env (PStr path) ((Some ∘ PStr <$> ss) ++ Some PNull :: rest) st =
    launch env path ((Some ∘ PStr <$> ss) ++ Some PNull :: rest) ss st.
Proof.
  unfold execv, bind. simpl. rewrite read_vector_literals.
  unfold launch, emit, get_fds, ret. by destruct (execv_ok env path).
Qed.

Lemma pipe_run st :
  pipe env st =
    (Ret (pipe_fds_of env),
     Proc (locals st) (fd_pipe (pipe_result env) (fds st)) (trace st ++ [EvPipe])).
Proof. done. Qed.

Lemma fork_run st : fork env st = (Ret (fork_result env), log st [EvFork]).
Proof. done. Qed.

Lemma dup2_run a b st :
  ∃ r, dup2 a b st =
    (Ret r, Proc (locals st) (fd_dup2 (fds st) a b) (trace st ++ [EvDup2 a b])).
Proof.
  unfold dup2, bind, emit, get_fds, set_fds, ret, log. simpl.
  case_decide; eauto.
Qed.

Lemma close_run a st :
  ∃ r, close a st =
    (Ret r, Proc (locals st) (fd_close (fds st) a) (trace st ++ [EvClose a])).
Proof.
  unfold close, bind, emit, get_fds, set_fds, ret, log. simpl.
  case_decide; eauto.
Qed.
End Steps.

Lemma ended_launch {L} env p raw a (st : proc L) :
  ended (falls_off (launch env p raw a st)) =
    ((if execv_ok env p then Replaced p a (fds st) else Exited 0),
     log st [EvExecv p raw a]).
Proof. unfold launch. by destruct (execv_ok env p). Qed.

Lemma netstat_run env st :
  elevated_netstat.main env st =
    falls_off (launch env "/bin/netstat" elevated_netstat.param ["netstat"; "-tnap"]
                 (log st (elevate_trace env elevated_netstat.newcaps))).
Proof.
  unfold elevated_netstat.main, bind. rewrite elevate_run by (simpl; lia).
  rewrite (execv_literals env "/bin/netstat" ["netstat"; "-tnap"] []).
  done.
Qed.

Lemma docker_stats_run env st :
  elevated_docker_stats.main env st =
    falls_off (launch env "/usr/bin/docker" elevated_docker_stats.param
                 ["docker"; "stats"; "--no-stream"; "--format";
                  elevated_docker_stats.format]
                 (log st (elevate_trace env elevated_docker_stats.newcaps))).
Proof.
  unfold elevated_docker_stats.main, bind. rewrite elevate_run by (simpl; lia).
  rewrite (execv_literals env "/usr/bin/docker"
             ["docker"; "stats"; "--no-stream"; "--format";
              elevated_docker_stats.format] []).
  done.
Qed.

(** ** Facts about elevated_proc_fd.c *)

Module proc_fd_facts.
Import elevated_proc_fd.
Abbreviation chars := String.list_ascii_of_string.

Lemma deref_buf (st : proc frame) b s :
  c_str (get_buf (locals st) b) = Some s → deref (PBuf b) st = (Ret s, st).
Proof.
  intros Hs. unfold deref, bind, get_locals, char_array, frame_frame.
  simpl. by rewrite Hs.
Qed.

Lemma read_vector_frame v : ∀ ss (st : proc frame),
  vector_strings (locals st) v = Some ss → read_vector v st = (Ret ss, st).
Proof.
  induction v as [|[[|s|b]|] v IH]; intros ss st Hv; simpl in Hv; try done.
  - by injection Hv as <-.
  - destruct (vector_strings (locals st) v) as [ss'|] eqn:E; [|done].
    simpl in Hv. injection Hv as <-.
    cbn [read_vector]. unfold bind. simpl. by rewrite (IH ss').
  - destruct (c_str (get_buf (locals st) b)) as [s|] eqn:Es; [|done].
    destruct (vector_strings (locals st) v) as [ss'|] eqn:E; [|done].
    injection Hv as <-. cbn [read_vector]. unfold bind.
    rewrite (deref_buf _ _ _ Es). by rewrite (IH ss').
Qed.

Lemma execv_lsbin env l fdt tr path args :
  exec_ready l path args →
  execv env (PBuf Blsbin) (ls_args l) (Proc l fdt tr) =
    launch env path (ls_args l) args (Proc l fdt tr).
Proof.
  intros [Hp Ha]. unfold execv, bind.
  rewrite (deref_buf (Proc l fdt tr) Blsbin path Hp).
  rewrite (read_vector_frame _ args (Proc l fdt tr) Ha).
  unfold launch, emit, get_fds, ret. by destruct (execv_ok env path).
Qed.

Lemma pipe_compose_run env (st : proc frame) path args :
  exec_ready (locals st) path args →
  pipe_compose env st =
    let st' := Proc (locals st) (compose_fds env (fds st))
                 (trace st ++ compose_calls env) in
    if decide (fork_result env ≠ 0%Z)
    then falls_off (launch env path (ls_args (locals st)) args st')
    else falls_off (launch env "/usr/bin/wc" wc_args ["wc"; "-l"] st').
Proof.
  intros Hready. unfold pipe_compose, bind, compose_fds, compose_calls.
  rewrite pipe_run, fork_run. simpl.
  case_decide.
  - edestruct (dup2_run (L:=frame)) as [? ->].
    edestruct (close_run (L:=frame)) as [? ->].
    edestruct (close_run (L:=frame)) as [? ->].
    simpl. rewrite (execv_lsbin env _ _ _ path args) by done.
    by rewrite <- !app_assoc.
  - edestruct (dup2_run (L:=frame)) as [? ->].
    edestruct (close_run (L:=frame)) as [? ->].
    edestruct (close_run (L:=frame)) as [? ->].
    simpl. rewrite (execv_literals env "/usr/bin/wc" ["wc"; "-l"] []).
    by rewrite <- !app_assoc.
Qed.

(** *** The path array *)

Lemma after_path_length n :
  length (Some NUL :: drop (S n) (Some NUL :: replicate 25 (@None ascii))) = S (25 - n).
Proof.
  rewrite length_cons, length_drop, length_cons, length_replicate. lia.
Qed.

Lemma proc_path_unfold P :
  proc_path P =
    if decide (String.length P < 26) then
      let b2 := (Some <$> (chars "/proc/" ++ chars P)) ++
                Some NUL :: drop (S (String.length P)) (Some NUL :: replicate 25 None) in
      m ← c_strlen b2; write_str b2 m "/fd"
    else None.
Proof.
  unfold proc_path.
  change (buf_strcpy (fresh_buffer 32) "/proc/") with (Some after_proc).
  change (Some after_proc ≫= _) with
    (write_str after_proc (length (chars "/proc/")) P ≫=
       λ b2, c_strlen b2 ≫= λ m, write_str b2 m "/fd").
  unfold after_proc. rewrite write_str_app.
  change (length (Some NUL :: replicate 25 None)) with 26.
  by case_decide.
Qed.

Lemma proc_path_fits P :
  nul_free P → String.length P ≤ 22 →
  ∃ tail, proc_path P =
    Some ((Some <$> chars ("/proc/" +:+ P +:+ "/fd")) ++ Some NUL :: tail).
Proof.
  intros Hnf Hlen. rewrite proc_path_unfold, decide_True by lia. cbv zeta.
  rewrite c_strlen_app.
  2:{ rewrite <- chars_app. apply nul_free_chars. simpl. repeat split; done. }
  cbn [mbind option_bind]. rewrite write_str_app.
  rewrite decide_True.
  2:{ rewrite after_path_length. simpl. lia. }
  eexists. f_equal. f_equal.
  rewrite !chars_app. by rewrite <- app_assoc.
Qed.

Lemma proc_path_overflow P :
  nul_free P → 22 < String.length P → proc_path P = None.
Proof.
  intros Hnf Hlen. rewrite proc_path_unfold. case_decide; [|done]. cbv zeta.
  rewrite c_strlen_app.
  2:{ rewrite <- chars_app. apply nul_free_chars. simpl. repeat split; done. }
  cbn [mbind option_bind]. rewrite write_str_app.
  rewrite decide_False; [done|].
  rewrite after_path_length. simpl. lia.
Qed.

(** Whatever the argument, the array ends up holding a string. *)
Lemma proc_path_written P b : proc_path P = Some b → is_Some (c_str b).
Proof.
  rewrite proc_path_unfold. case_decide; [|done]. cbv zeta.
  set (cs := chars "/proc/" ++ chars P). set (tail := drop _ _).
  destruct (c_strlen_written cs tail) as (n & -> & Hn & _). cbn [mbind option_bind].
  rewrite <- (take_drop n cs) at 1. rewrite fmap_app, <- app_assoc.
  replace n with (length (take n cs)) at 3 by (rewrite length_take; lia).
  rewrite write_str_app. case_decide; [|done].
  intros [= <-]. apply c_str_written.
Qed.

Lemma proc_path_steps P :
  proc_path P =
    write_str after_proc 6 P ≫= λ b2, c_strlen b2 ≫= λ m, write_str b2 m "/fd".
Proof. done. Qed.

Lemma after_arg_terminated P b2 :
  write_str after_proc 6 P = Some b2 → is_Some (c_strlen b2).
Proof.
  unfold after_proc.
  change (write_str ?b 6 P) with (write_str b (length (chars "/proc/")) P).
  rewrite write_str_app. case_decide; [|done].
  intros Heq. apply (inj Some) in Heq. rewrite <- Heq.
  destruct (c_strlen_written (chars "/proc/" ++ chars P)
              (drop (S (String.length P)) (Some NUL :: replicate 25 None)))
    as (n & -> & _). done.
Qed.

(** *** The command builder *)

Lemma strcat_run dst s l fdt tr :
  strcat dst (PStr s) (Proc l fdt tr) =
    match c_strlen (get_buf l dst) with
    | None => (Halt (Undefined UnterminatedRead), Proc l fdt tr)
    | Some n =>
        match write_str (get_buf l dst) n s with
        | Some x => (Ret (), Proc (set_buf l dst x) fdt tr)
        | None => (Halt (Undefined (BufferOverflow dst)), Proc l fdt tr)
        end
    end.
Proof.
  unfold strcat, bind, deref, get_locals, ret. cbv beta iota.
  cbn [locals]. destruct (c_strlen (get_buf l dst)); [|done].
  by destruct (write_str _ _ _).
Qed.

Lemma read_argv_run (argv : list string) i (st : proc frame) :
  read_argv argv i st =
    match argv !! i with
    | Some s => (Ret (PStr s), log st [EvArgv i])
    | None =>
        if decide (i = length argv) then (Ret PNull, log st [EvArgv i])
        else (Halt (Undefined OutOfBoundsRead), log st [EvArgv i])
    end.
Proof.
  unfold read_argv, bind, emit. destruct (argv !! i); [done|].
  by case_decide.
Qed.

(** No second argument: the comparison follows a null pointer, or
    reads behind the argument array. *)
Lemma build_command_no_arg argv fdt tr :
  argv !! 1 = None →
  ∃ l, build_command argv (Proc frame0 fdt tr) =
    (Halt (Undefined (if decide (1 = length argv) then NullDereference
                      else OutOfBoundsRead)),
     Proc l fdt (tr ++ [EvArgv 1])).
Proof.
  intros Harg. unfold build_command, bind.
  change (strcpy Blsbin (PStr "/bin/ls") (Proc frame0 fdt tr)) with
    (Ret (), Proc (Frm (replicate 64 None) (fresh_buffer 32) lsbin_ls) fdt tr).
  cbv beta iota. rewrite read_argv_run, Harg. case_decide; eexists; done.
Qed.

(** The argument compares equal to ["-1"]. *)
Lemma build_command_lsof argv P fdt tr :
  argv !! 1 = Some P → str_cmp P "-1" = 0%Z →
  build_command argv (Proc frame0 fdt tr) =
    (Ret (), Proc (Frm lsof_vector (fresh_buffer 32) lsbin_lsof) fdt (tr ++ [EvArgv 1])).
Proof.
  intros Harg Hcmp. unfold build_command, bind.
  change (strcpy Blsbin (PStr "/bin/ls") (Proc frame0 fdt tr)) with
    (Ret (), Proc (Frm (replicate 64 None) (fresh_buffer 32) lsbin_ls) fdt tr).
  cbv beta iota. rewrite read_argv_run, Harg.
  cbv beta iota.
  change (strcmp (PStr P) (PStr "-1") ?st) with (Ret (str_cmp P "-1"), st).
  cbv beta iota.
  rewrite Hcmp. done.
Qed.

(** The argument differs from ["-1"]. *)
Lemma build_command_ls argv P fdt tr :
  argv !! 1 = Some P → str_cmp P "-1" ≠ 0%Z →
  ∃ l, build_command argv (Proc frame0 fdt tr) =
    (match proc_path P with
     | Some _ => Ret ()
     | None => Halt (Undefined (BufferOverflow BprocFDParam))
     end,
     Proc l fdt (tr ++ [EvArgv 1; EvArgv 1]))
    ∧ ∀ b, proc_path P = Some b → l = Frm ls_vector b lsbin_ls.
Proof.
  intros Harg Hcmp. unfold build_command, bind.
  change (strcpy Blsbin (PStr "/bin/ls") (Proc frame0 fdt tr)) with
    (Ret (), Proc (Frm (replicate 64 None) (fresh_buffer 32) lsbin_ls) fdt tr).
  cbv beta iota. rewrite read_argv_run, Harg.
  cbv beta iota.
  change (strcmp (PStr P) (PStr "-1") ?st) with (Ret (str_cmp P "-1"), st).
  cbv beta iota.
  rewrite decide_True by done.
  change (strcpy BprocFDParam (PStr "/proc/") (log ?st [EvArgv 1])) with
    (Ret (), Proc (Frm (replicate 64 None) after_proc lsbin_ls) fdt (tr ++ [EvArgv 1])).
  cbv beta iota. rewrite read_argv_run, Harg.
  unfold log. cbn [locals fds trace]. rewrite strcat_run.
  rewrite proc_path_steps.
  change (c_strlen (get_buf _ BprocFDParam)) with (Some 6).
  cbn [get_buf procFDParam locals log fds trace].
  destruct (write_str after_proc 6 P) as [b2|] eqn:E2; cbn [mbind option_bind].
  2:{ eexists. split; [by rewrite <- app_assoc | done]. }
  rewrite strcat_run. cbn [set_buf get_buf procFDParam ls_args lsbin].
  destruct (after_arg_terminated P b2 E2) as [m ->]. cbn [mbind option_bind].
  destruct (write_str b2 m "/fd") as [b3|] eqn:E3.
  2:{ eexists. split; [by rewrite <- app_assoc | done]. }
  eexists. split; [by rewrite <- app_assoc|].
  by intros b [= <-].
Qed.
(** *** The whole of [main] *)

Lemma main_after_builder env argv l fdt0 reads path args :
  argv ≠ [] →
  build_command argv (Proc frame0 fdt0 [EvArgc]) =
    (Ret (), Proc l fdt0 ([EvArgc] ++ reads)) →
  exec_ready l path args →
  run_main (main env argv) frame0 fdt0 = past_builder env l fdt0 reads path args.
Proof.
  intros Hne Hb Hready. unfold run_main, main, bind, read_argc, bind, emit, ret.
  cbv beta iota. rewrite decide_False.
  2:{ destruct argv; [done|]. rewrite length_cons. lia. }
  change (log (Proc frame0 fdt0 []) [EvArgc]) with (Proc frame0 fdt0 [EvArgc]).
  rewrite Hb. rewrite elevate_run by (simpl; lia).
  rewrite (pipe_compose_run env _ path args) by done.
  unfold past_builder, branch_outcome, branch_execv, log. cbv zeta.
  cbn [locals fds trace].
  case_decide; rewrite ended_launch; unfold log; cbn [locals fds trace];
    by rewrite <- !app_assoc.
Qed.

Lemma main_builder_halts env argv l fdt0 reads o :
  argv ≠ [] →
  build_command argv (Proc frame0 fdt0 [EvArgc]) =
    (Halt o, Proc l fdt0 ([EvArgc] ++ reads)) →
  run_main (main env argv) frame0 fdt0 = (o, Proc l fdt0 ([EvArgc] ++ reads)).
Proof.
  intros Hne Hb. unfold run_main, main, bind, read_argc, bind, emit, ret.
  cbv beta iota. rewrite decide_False.
  2:{ destruct argv; [done|]. rewrite length_cons. lia. }
  change (log (Proc frame0 fdt0 []) [EvArgc]) with (Proc frame0 fdt0 [EvArgc]).
  by rewrite Hb.
Qed.

(** No argument list at all: the guard fires. *)
Lemma main_no_argv env fdt0 :
  run_main (main env []) frame0 fdt0 =
    (Exited 255, Proc frame0 fdt0 [EvArgc; EvPrintf usage]).
Proof. done. Qed.

(** The program name alone. *)
Lemma main_program_name_only env a0 fdt0 :
  ∃ l, run_main (main env [a0]) frame0 fdt0 =
    (Undefined NullDereference, Proc l fdt0 [EvArgc; EvArgv 1]).
Proof.
  destruct (build_command_no_arg [a0] fdt0 [EvArgc]) as [l Hl]; [done|].
  exists l. by rewrite (main_builder_halts env [a0] l fdt0 [EvArgv 1] _ ltac:(done) Hl).
Qed.

Lemma lsof_ready :
  exec_ready (Frm lsof_vector (fresh_buffer 32) lsbin_lsof)
    "/usr/bin/lsof" ["/usr/bin/lsof"].
Proof. done. Qed.

Lemma ls_ready b s :
  c_str b = Some s → exec_ready (Frm ls_vector b lsbin_ls) "/bin/ls" ["ls"; s].
Proof. intros Hs. split; [done|]. simpl. by rewrite Hs. Qed.

(** The argument compares equal to ["-1"]. *)
Lemma main_lsof env a0 P rest fdt0 :
  str_cmp P "-1" = 0%Z →
  run_main (main env (a0 :: P :: rest)) frame0 fdt0 =
    past_builder env (Frm lsof_vector (fresh_buffer 32) lsbin_lsof) fdt0
      [EvArgv 1] "/usr/bin/lsof" ["/usr/bin/lsof"].
Proof.
  intros Hcmp. apply main_after_builder; [done| |apply lsof_ready].
  by apply (build_command_lsof _ P).
Qed.

(** The argument differs from ["-1"] and the path fits. *)
Lemma main_ls env a0 P rest fdt0 b :
  str_cmp P "-1" ≠ 0%Z → proc_path P = Some b →
  ∃ s, c_str b = Some s ∧
    run_main (main env (a0 :: P :: rest)) frame0 fdt0 =
      past_builder env (Frm ls_vector b lsbin_ls) fdt0
        [EvArgv 1; EvArgv 1] "/bin/ls" ["ls"; s].
Proof.
  intros Hcmp Hb. destruct (proc_path_written P b Hb) as [s Hs].
  exists s. split; [done|].
  destruct (build_command_ls (a0 :: P :: rest) P fdt0 [EvArgc]) as (l & Hl & Hfr);
    [done..|].
  rewrite Hb in Hl. rewrite (Hfr b Hb) in Hl.
  apply main_after_builder; [done|done|by apply ls_ready].
Qed.

(** The argument differs from ["-1"] and the path does not fit. *)
Lemma main_overflow env a0 P rest fdt0 :
  str_cmp P "-1" ≠ 0%Z → proc_path P = None →
  ∃ l, run_main (main env (a0 :: P :: rest)) frame0 fdt0 =
    (Undefined (BufferOverflow BprocFDParam),
     Proc l fdt0 [EvArgc; EvArgv 1; EvArgv 1]).
Proof.
  intros Hcmp Hb.
  destruct (build_command_ls (a0 :: P :: rest) P fdt0 [EvArgc]) as (l & Hl & _);
    [done..|].
  rewrite Hb in Hl. exists l.
  apply (main_builder_halts env _ l fdt0 [EvArgv 1; EvArgv 1]); done.
Qed.

Lemma proc_path_length P b : proc_path P = Some b → length b = 32.
Proof.
  rewrite proc_path_steps.
  destruct (write_str after_proc 6 P) as [b2|] eqn:E2; [|done].
  cbn [mbind option_bind].
  destruct (c_strlen b2) as [m|]; [|done]. cbn [mbind option_bind].
  intros E3. rewrite (write_str_length _ _ _ _ E3).
  by rewrite (write_str_length _ _ _ _ E2).
Qed.

Lemma nul_free_path P : nul_free P → nul_free ("/proc/" +:+ P +:+ "/fd").
Proof.
  intros HP. rewrite nul_free_chars, !chars_app, !not_elem_of_app.
  rewrite <- !nul_free_chars. simpl. split_and!; done.
Qed.

Lemma differs_from_sentinel P : nul_free P → P ≠ "-1" → str_cmp P "-1" ≠ 0%Z.
Proof.
  intros HP Hne Hc. apply str_cmp_eq in Hc; [done|done|]. simpl. split_and!; done.
Qed.

(** An argument of at most 22 bytes other than ["-1"]: the path is
    built in [procFDParam] and the run goes on to the end. *)
Lemma main_fits env a0 P rest fdt0 :
  nul_free P → P ≠ "-1" → String.length P ≤ 22 →
  ∃ tail,
    length ((Some <$> chars ("/proc/" +:+ P +:+ "/fd")) ++ Some NUL :: tail) = 32 ∧
    run_main (main env (a0 :: P :: rest)) frame0 fdt0 =
      past_builder env
        (Frm ls_vector ((Some <$> chars ("/proc/" +:+ P +:+ "/fd")) ++ Some NUL :: tail)
           lsbin_ls)
        fdt0 [EvArgv 1; EvArgv 1] "/bin/ls" ["ls"; "/proc/" +:+ P +:+ "/fd"].
Proof.
  intros HP Hne Hlen.
  destruct (proc_path_fits P HP Hlen) as [tail Hb]. exists tail.
  split; [by apply (proc_path_length P)|].
  destruct (main_ls env a0 P rest fdt0 _ (differs_from_sentinel P HP Hne) Hb)
    as (s & Hs & ->).
  rewrite c_str_app in Hs by (by apply nul_free_chars, nul_free_path).
  rewrite String.string_of_list_ascii_of_string in Hs. by injection Hs as <-.
Qed.

(** A longer argument: the copies leave the array. *)
Lemma main_too_long env a0 P rest fdt0 :
  nul_free P → P ≠ "-1" → 22 < String.length P →
  ∃ l, run_main (main env (a0 :: P :: rest)) frame0 fdt0 =
    (Undefined (BufferOverflow BprocFDParam),
     Proc l fdt0 [EvArgc; EvArgv 1; EvArgv 1]).
Proof.
  intros HP Hne Hlen. apply main_overflow.
  - by apply differs_from_sentinel.
  - by apply proc_path_overflow.
Qed.

End proc_fd_facts.

Import proc_fd_facts.

(** ** The shape of a run *)

Lemma branch_execv_is_execv env l path args :
  is_execv (branch_execv env l path args) = true.
Proof. unfold branch_execv. by case_decide. Qed.

Lemma terminated_literals (ss : list string) rest :
  terminated ((Some ∘ PStr <$> ss) ++ Some PNull :: rest) (length ss).
Proof.
  split.
  - rewrite lookup_app_r by (rewrite length_fmap; lia).
    by rewrite length_fmap, Nat.sub_diag.
  - intros i Hi. destruct (lookup_lt_is_Some_2 ss i Hi) as [s Hs].
    exists (PStr s). split; [|done].
    rewrite lookup_app_l by (rewrite length_fmap; lia).
    by rewrite list_lookup_fmap, Hs.
Qed.

Lemma compose_calls_wiring env :
  Forall (λ e, is_launch e = true ∧ is_execv e = false) (compose_calls env).
Proof. unfold compose_calls. case_decide; repeat constructor. Qed.

Lemma past_builder_reaches env l fdt0 reads path args :
  Forall (λ e, is_arg e = true) reads →
  well_formed_call path (elevated_proc_fd.ls_args l) args →
  reaches_execv env elevated_proc_fd.newcaps
    (observe (past_builder env l fdt0 reads path args)).
Proof.
  intros Hreads Hwf. unfold past_builder, observe, branch_outcome, branch_execv.
  cbn [fst snd locals fds trace]. case_decide.
  - exists (EvArgc :: reads), (compose_calls env), path,
      (elevated_proc_fd.ls_args l), args.
    split_and!; [done|done| |apply compose_calls_wiring|done].
    by constructor.
  - exists (EvArgc :: reads), (compose_calls env), "/usr/bin/wc",
      elevated_proc_fd.wc_args, ["wc"; "-l"].
    split_and!; [done|done| |apply compose_calls_wiring|].
    + by constructor.
    + split_and!; [simpl; lia|apply (terminated_literals ["wc"; "-l"] [])|by left].
Qed.

Lemma ls_call_well_formed b s :
  well_formed_call "/bin/ls" (elevated_proc_fd.ls_args (elevated_proc_fd.Frm elevated_proc_fd.ls_vector b elevated_proc_fd.lsbin_ls)) ["ls"; s].
Proof.
  split_and!; [simpl; lia| |by left].
  split; [done|]. intros [|[|i]] Hi; simpl in *; [eauto..|lia].
Qed.

Lemma lsof_call_well_formed b :
  well_formed_call "/usr/bin/lsof" (elevated_proc_fd.ls_args (elevated_proc_fd.Frm elevated_proc_fd.lsof_vector b elevated_proc_fd.lsbin_lsof)) ["/usr/bin/lsof"].
Proof.
  split_and!; [simpl; lia| |by right].
  split; [done|]. intros [|i] Hi; simpl in *; [eauto|lia].
Qed.

(** The runs of [elevated_proc_fd.c]: either the run stops while it
    handles its arguments, or the command builder comes to its end, with a
    frame that is ready for [execv], and the rest of [main] follows,
    whatever the kernel answers. *)
Lemma proc_fd_cases env argv fdt0 :
  stops_early (run ProcFd env argv fdt0) ∨
  ∃ l reads path args,
    elevated_proc_fd.build_command argv (Proc elevated_proc_fd.frame0 fdt0 [EvArgc]) =
      (Ret (), Proc l fdt0 (EvArgc :: reads)) ∧
    Forall (λ e, is_arg e = true) reads ∧
    elevated_proc_fd.exec_ready l path args ∧
    well_formed_call path (elevated_proc_fd.ls_args l) args ∧
    (path = "/bin/ls" ∨ path = "/usr/bin/lsof") ∧
    ∀ env', run_main (elevated_proc_fd.main env' argv) elevated_proc_fd.frame0 fdt0 =
              past_builder env' l fdt0 reads path args.
Proof.
  unfold run. destruct argv as [|a0 [|P rest]].
  - left. rewrite main_no_argv. split; [|by left]. repeat constructor.
  - left. destruct (main_program_name_only env a0 fdt0) as [l ->].
    split; [|right; eauto]. repeat constructor.
  - destruct (decide (str_cmp P "-1" = 0%Z)) as [Hc|Hc].
    + right. eexists _, [EvArgv 1], "/usr/bin/lsof", ["/usr/bin/lsof"].
      split_and!; [by apply (build_command_lsof _ P)|repeat constructor|
                   apply lsof_ready|apply lsof_call_well_formed|by right|].
      intros env'. by apply main_lsof.
    + destruct (build_command_ls (a0 :: P :: rest) P fdt0 [EvArgc]) as (l & Hl & Hfr);
        [done..|].
      destruct (elevated_proc_fd.proc_path P) as [b|] eqn:Hb.
      * right. destruct (proc_path_written P b Hb) as [s Hs].
        rewrite (Hfr b eq_refl) in Hl.
        eexists _, [EvArgv 1; EvArgv 1], "/bin/ls", ["ls"; s].
        split_and!; [exact Hl|repeat constructor|by apply ls_ready|
                     apply ls_call_well_formed|by left|].
        intros env'. apply main_after_builder; [done|exact Hl|by apply ls_ready].
      * left. destruct (main_overflow env a0 P rest fdt0 Hc Hb) as [l' ->].
        split; [|right; eauto]. repeat constructor.
Qed.

Lemma run_shape v env argv fdt0 :
  stops_early (run v env argv fdt0) ∨
  reaches_execv env (caps_of v) (run v env argv fdt0).
Proof.
  destruct v.
  - right. unfold run, run_main. rewrite netstat_run, ended_launch.
    exists [], [], "/bin/netstat", elevated_netstat.param, ["netstat"; "-tnap"].
    split_and!; [done|done|done|done|].
    split_and!; [simpl; lia|apply (terminated_literals ["netstat"; "-tnap"] [])|by left].
  - right. unfold run, run_main. rewrite docker_stats_run, ended_launch.
    exists [], [], "/usr/bin/docker", elevated_docker_stats.param,
      ["docker"; "stats"; "--no-stream"; "--format"; elevated_docker_stats.format].
    split_and!; [done|done|done|done|].
    split_and!; [simpl; lia| |by left].
    apply (terminated_literals
             ["docker"; "stats"; "--no-stream"; "--format"; elevated_docker_stats.format] []).
  - destruct (proc_fd_cases env argv fdt0) as [?|(l & reads & path & args & _ & Hr & _ & Hwf & _ & Hrun)];
      [by left|right].
    unfold run. rewrite Hrun. by apply past_builder_reaches.
Qed.

(** ** Order and membership in traces *)

Lemma precedes_app P Q t1 t2 :
  Forall (λ e, Q e = false) t1 → Forall (λ e, P e = false) t2 →
  precedes P Q (t1 ++ t2).
Proof.
  intros H1 H2 i j a b Hi Hj Pa Qb.
  destruct (decide (j < length t1)) as [Hlt|Hge].
  - rewrite lookup_app_l in Hj by done.
    rewrite Forall_lookup in H1. specialize (H1 j b Hj). simpl in H1. congruence.
  - destruct (decide (i < length t1)) as [|Hge']; [lia|].
    rewrite lookup_app_r in Hi by lia.
    rewrite Forall_lookup in H2. specialize (H2 _ a Hi). simpl in H2. congruence.
Qed.

Lemma precedes_without_first P Q t :
  Forall (λ e, P e = false) t → precedes P Q t.
Proof.
  intros H. rewrite <- (app_nil_l t). by apply precedes_app.
Qed.

Lemma precedes_without_second P Q t :
  Forall (λ e, Q e = false) t → precedes P Q t.
Proof.
  intros H. rewrite <- (app_nil_r t). by apply precedes_app.
Qed.

Lemma ambient_trace_kinds env cs :
  Forall (λ e, is_arg e = false ∧ is_launch e = false) (ambient_trace env cs).
Proof.
  induction cs as [|c cs IH]; simpl; [done|].
  constructor; [done|]. case_decide; [repeat constructor|done].
Qed.

Lemma elevate_trace_kinds env cs :
  Forall (λ e, is_arg e = false ∧ is_launch e = false) (elevate_trace env cs).
Proof.
  unfold elevate_trace. apply Forall_app. split; [repeat constructor|].
  apply ambient_trace_kinds.
Qed.

(** The events of a run that reached [execv], sorted by kind. *)
Lemma reached_kinds env caps reads wiring e :
  Forall (λ e, is_arg e = true) reads →
  Forall (λ e, is_launch e = true ∧ is_execv e = false) wiring →
  is_execv e = true →
  Forall (λ e, is_cap e = false ∧ is_launch e = false) reads ∧
  Forall (λ e, is_arg e = false ∧ is_launch e = false) (elevate_trace env caps) ∧
  Forall (λ e, is_arg e = false ∧ is_cap e = false) (wiring ++ [e]).
Proof.
  intros Hr Hw He. split_and!.
  - eapply Forall_impl; [exact Hr|]. by intros [].
  - apply elevate_trace_kinds.
  - apply Forall_app. split.
    + eapply Forall_impl; [exact Hw|]. by intros [] [].
    + constructor; [|done]. by destruct e.
Qed.

(** A run that reached [execv] holds no other [execv] call. *)
Lemma execv_is_last env caps reads wiring e x :
  Forall (λ e, is_arg e = true) reads →
  Forall (λ e, is_launch e = true ∧ is_execv e = false) wiring →
  is_execv x = true →
  x ∈ reads ++ elevate_trace env caps ++ wiring ++ [e] → x = e.
Proof.
  intros Hr Hw Hx Hin.
  rewrite !elem_of_app in Hin. destruct Hin as [Hin|[Hin|[Hin|Hin]]].
  - rewrite Forall_forall in Hr. specialize (Hr x Hin). by destruct x.
  - pose proof (elevate_trace_kinds env caps) as Hk.
    rewrite Forall_forall in Hk. destruct (Hk x Hin). by destruct x.
  - rewrite Forall_forall in Hw. destruct (Hw x Hin). congruence.
  - by apply list_elem_of_singleton in Hin.
Qed.

(** A refused raise is the last call of [set_ambient_caps] but for the
    message. *)
Lemma ambient_trace_refused env cs c :
  EvAmbientRaise c ∈ ambient_trace env cs → ambient_raise env c ≠ 0%Z →
  ∃ pre, ambient_trace env cs =
           pre ++ [EvAmbientRaise c; EvPrintf ("Fail!" +:+ LF)].
Proof.
  induction cs as [|c' cs IH]; simpl; intros Hin Hc.
  - by apply elem_of_nil in Hin.
  - case_decide as Hc'.
    + apply elem_of_cons in Hin as [Heq|Hin].
      * injection Heq as ->. by exists [].
      * apply list_elem_of_singleton in Hin. done.
    + apply elem_of_cons in Hin as [Heq|Hin].
      * injection Heq as ->. done.
      * destruct (IH Hin Hc) as [pre ->]. by exists (EvAmbientRaise c' :: pre).
Qed.

(** ** The descriptor table after the wiring *)

Lemma compose_fds_parent env fdt0 r w :
  pipe_result env = Some (r, w) → fork_result env ≠ 0%Z →
  fdt0 !! r = None → fdt0 !! w = None → r ≠ w → is_Some (fdt0 !! 1%Z) →
  compose_fds env fdt0 = <[1%Z := PipeWrite]> fdt0.
Proof.
  intros Hp Hf Hr Hw Hrw [f1 H1].
  assert (r ≠ 1%Z) by congruence. assert (w ≠ 1%Z) by congruence.
  unfold compose_fds, pipe_fds_of, fd_pipe, fd_dup2, fd_close. rewrite Hp.
  cbv zeta. rewrite decide_True by done. cbn [fst snd].
  rewrite lookup_insert_eq. rewrite decide_True by lia.
  apply map_eq. intros k.
  destruct (decide (k = r)) as [->|]; [by simplify_map_eq|].
  destruct (decide (k = w)) as [->|]; [by simplify_map_eq|].
  destruct (decide (k = 1%Z)) as [->|]; by simplify_map_eq.
Qed.

Lemma compose_fds_child env fdt0 r w :
  pipe_result env = Some (r, w) → fork_result env = 0%Z →
  fdt0 !! r = None → fdt0 !! w = None → r ≠ w → is_Some (fdt0 !! 0%Z) →
  compose_fds env fdt0 = <[0%Z := PipeRead]> fdt0.
Proof.
  intros Hp Hf Hr Hw Hrw [f0 H0].
  assert (r ≠ 0%Z) by congruence. assert (w ≠ 0%Z) by congruence.
  unfold compose_fds, pipe_fds_of, fd_pipe, fd_dup2, fd_close. rewrite Hp.
  cbv zeta. rewrite decide_False by (intros ?; done). cbn [fst snd].
  rewrite lookup_insert_ne, lookup_insert_eq by done. rewrite decide_True by lia.
  apply map_eq. intros k.
  destruct (decide (k = r)) as [->|]; [by simplify_map_eq|].
  destruct (decide (k = w)) as [->|]; [by simplify_map_eq|].
  destruct (decide (k = 0%Z)) as [->|]; by simplify_map_eq.
Qed.

(** A run of [elevated_proc_fd.c] in which some call of the capability
    block or of the launch occurs got past the command builder. *)
Lemma proc_fd_past_builder env argv fdt0 e :
  e ∈ trace (run_main (elevated_proc_fd.main env argv) elevated_proc_fd.frame0 fdt0).2 →
  is_launch e = true →
  ∃ l reads path args,
    elevated_proc_fd.build_command argv (Proc elevated_proc_fd.frame0 fdt0 [EvArgc]) =
      (Ret (), Proc l fdt0 (EvArgc :: reads)) ∧
    Forall (λ e, is_arg e = true) reads ∧
    elevated_proc_fd.exec_ready l path args ∧
    well_formed_call path (elevated_proc_fd.ls_args l) args ∧
    (path = "/bin/ls" ∨ path = "/usr/bin/lsof") ∧
    ∀ env', run_main (elevated_proc_fd.main env' argv) elevated_proc_fd.frame0 fdt0 =
              past_builder env' l fdt0 reads path args.
Proof.
  intros Hin He. destruct (proc_fd_cases env argv fdt0) as [[Hearly _]|?]; [|done].
  rewrite Forall_forall in Hearly. destruct (Hearly e Hin). congruence.
Qed.

(** ** The calls of [set_ambient_caps], by what the kernel answers *)

Lemma ambient_trace_granted env cs :
  Forall (granted env) cs → ambient_trace env cs = EvAmbientRaise <$> cs.
Proof.
  induction 1 as [|c cs Hc _ IH]; csimpl; [done|].
  unfold granted in Hc. rewrite decide_False by (intros ?; done). by rewrite IH.
Qed.

Lemma ambient_trace_first_refusal env cs k c :
  cs !! k = Some c → ¬ granted env c → Forall (granted env) (take k cs) →
  ambient_trace env cs =
    (EvAmbientRaise <$> take (S k) cs) ++ [EvPrintf ("Fail!" +:+ LF)].
Proof.
  revert k. induction cs as [|c' cs IH]; intros k Hk Hc Hg; [done|].
  destruct k as [|k]; csimpl in *.
  - injection Hk as ->. by rewrite decide_True by done.
  - apply Forall_cons in Hg as [Hc' Hg]. unfold granted in Hc'.
    rewrite decide_False by (intros ?; done). by rewrite (IH k).
Qed.

Lemma first_refused_spec env cs k :
  first_refused env cs = Some k →
  ∃ c, cs !! k = Some c ∧ ¬ granted env c ∧ Forall (granted env) (take k cs).
Proof.
  revert k. induction cs as [|c cs IH]; intros k; simpl; [done|].
  case_decide as Hc.
  - intros [= <-]. exists c. split_and!; [done|done|constructor].
  - destruct (first_refused env cs) as [k'|]; [|done]. intros [= <-].
    destruct (IH k' eq_refl) as (c' & Hk & Hr & Hg).
    exists c'. split_and!; [done|done|]. simpl. constructor; [|done].
    unfold granted. destruct (decide (ambient_raise env c = 0%Z)); [done|by destruct Hc].
Qed.

(** * Properties of the proxies *)

(** ** C1 *)

(** C1 (the code departs from the claim): started with its program name
    and no argument, the fd-count proxy gets past the guard [argc < 1],
    prints no usage message and does not return -1; the comparison
    [strcmp(argv[1], "-1")] follows the null pointer that ends the
    argument list. *)
Theorem C1_guard_lets_missing_argument_through env a0 fdt0 :
  run ProcFd env [a0] fdt0 = (Undefined NullDereference, [EvArgc; EvArgv 1], fdt0).
Proof.
  unfold run. by destruct (main_program_name_only env a0 fdt0) as [l ->].
Qed.

(** ** C2 *)

(** C2: with ["-1"] as first argument the command builder leaves
    [procFDParam] untouched, puts ["/usr/bin/lsof"] into [lsbin] and makes
    [ls_args] the vector of that one string; the only [execv] calls a run
    can then make are [lsof] without arguments (parent of the fork) and
    [wc -l] (child), and the run does end in that call. *)
Theorem C2_sentinel_selects_lsof env a0 rest fdt0 :
  let r := run_main (elevated_proc_fd.main env (a0 :: "-1" :: rest))
             elevated_proc_fd.frame0 fdt0 in
  locals r.2 = elevated_proc_fd.Frm elevated_proc_fd.lsof_vector (fresh_buffer 32)
                 elevated_proc_fd.lsbin_lsof ∧
  elevated_proc_fd.exec_ready (locals r.2) "/usr/bin/lsof" ["/usr/bin/lsof"] ∧
  last (trace r.2) =
    Some (if decide (fork_result env ≠ 0%Z)
          then EvExecv "/usr/bin/lsof" elevated_proc_fd.lsof_vector ["/usr/bin/lsof"]
          else EvExecv "/usr/bin/wc" elevated_proc_fd.wc_args ["wc"; "-l"]) ∧
  (∀ e, e ∈ trace r.2 → is_execv e = true → last (trace r.2) = Some e).
Proof.
  cbv zeta. rewrite (main_lsof env a0 "-1" rest fdt0) by done.
  unfold past_builder. cbn [fst snd locals fds trace].
  assert (∀ t, last (t ++ [branch_execv env
            (elevated_proc_fd.Frm elevated_proc_fd.lsof_vector (fresh_buffer 32)
               elevated_proc_fd.lsbin_lsof) "/usr/bin/lsof" ["/usr/bin/lsof"]]) =
          Some (if decide (fork_result env ≠ 0%Z)
          then EvExecv "/usr/bin/lsof" elevated_proc_fd.lsof_vector ["/usr/bin/lsof"]
          else EvExecv "/usr/bin/wc" elevated_proc_fd.wc_args ["wc"; "-l"])) as Hlast.
  { intros t. rewrite last_snoc. unfold branch_execv. by case_decide. }
  split_and!; [done|done| |].
  - by rewrite !app_assoc, Hlast.
  - intros e He Hx.
    apply (execv_is_last env _ [EvArgc; EvArgv 1] _ _ e) in He;
      [|repeat constructor|apply compose_calls_wiring|done].
    subst e. by rewrite !app_assoc, last_snoc.
Qed.

(** ** C3 *)

(** C3, as stated, fails: an argument of 23 bytes other than ["-1"] makes
    the copies run past [procFDParam]; no argument vector with the path as
    second element is handed to any [execv]. *)
Lemma C3_counterexample :
  let r := run_main (elevated_proc_fd.main env_ok ["elevated_proc_fd"; long_pid])
             elevated_proc_fd.frame0 stdio in
  long_pid ≠ "-1" ∧
  r.1 = Undefined (BufferOverflow BprocFDParam) ∧
  ¬ ∃ path argv args,
      EvExecv path argv args ∈ trace r.2 ∧
      args !! 1 = Some ("/proc/" +:+ long_pid +:+ "/fd").
Proof.
  cbv zeta. split_and!; [done|by vm_compute|].
  intros (path & argv & args & Hin & _). vm_compute in Hin.
  repeat (apply elem_of_cons in Hin as [Hin|Hin]; [done|]).
  by apply elem_of_nil in Hin.
Qed.

(** C3 (amended): for every first argument [P] other than ["-1"] of at
    most 22 bytes, [procFDParam] holds exactly ["/proc/" + P + "/fd"],
    the second entry of [ls_args] points to it, the vector [execv] reads
    from [ls_args] is [ls] followed by that path, and the run ends in the
    [execv] call of its branch. *)
Theorem C3_target_path_is_proc_P_fd env a0 P rest fdt0 :
  nul_free P → P ≠ "-1" → String.length P ≤ 22 →
  let r := run_main (elevated_proc_fd.main env (a0 :: P :: rest))
             elevated_proc_fd.frame0 fdt0 in
  let target := "/proc/" +:+ P +:+ "/fd" in
  c_str (elevated_proc_fd.procFDParam (locals r.2)) = Some target ∧
  elevated_proc_fd.ls_args (locals r.2) !! 1 = Some (Some (PBuf BprocFDParam)) ∧
  elevated_proc_fd.exec_ready (locals r.2) "/bin/ls" ["ls"; target] ∧
  last (trace r.2) =
    Some (if decide (fork_result env ≠ 0%Z)
          then EvExecv "/bin/ls" (elevated_proc_fd.ls_args (locals r.2)) ["ls"; target]
          else EvExecv "/usr/bin/wc" elevated_proc_fd.wc_args ["wc"; "-l"]).
Proof.
  intros HP Hne Hlen. cbv zeta.
  destruct (main_fits env a0 P rest fdt0 HP Hne Hlen) as (tail & _ & ->).
  unfold past_builder. cbn [fst snd locals fds trace].
  assert (c_str ((Some <$> String.list_ascii_of_string ("/proc/" +:+ P +:+ "/fd")) ++
                 Some NUL :: tail) = Some ("/proc/" +:+ P +:+ "/fd")) as Hs.
  { rewrite c_str_app by (by apply nul_free_chars, nul_free_path).
    by rewrite String.string_of_list_ascii_of_string. }
  split_and!; [done|done|by apply ls_ready|].
  by rewrite !app_assoc, last_snoc.
Qed.

Lemma C3_target_path_witness :
  let r := run_main (elevated_proc_fd.main env_ok ["elevated_proc_fd"; "1234"])
             elevated_proc_fd.frame0 stdio in
  c_str (elevated_proc_fd.procFDParam (locals r.2)) = Some "/proc/1234/fd" ∧
  elevated_proc_fd.ls_args (locals r.2) !! 1 = Some (Some (PBuf BprocFDParam)) ∧
  elevated_proc_fd.exec_ready (locals r.2) "/bin/ls" ["ls"; "/proc/1234/fd"] ∧
  last (trace r.2) =
    Some (EvExecv "/bin/ls" (elevated_proc_fd.ls_args (locals r.2))
            ["ls"; "/proc/1234/fd"]).
Proof.
  apply (C3_target_path_is_proc_P_fd env_ok "elevated_proc_fd" "1234" [] stdio).
  - simpl. split_and!; done.
  - done.
  - simpl. lia.
Defined.

(** ** C4 *)

(** C4: in a run of the fd-count proxy that reaches its fork, on a
    kernel whose [pipe] hands out two fresh descriptors [r] and [w] while
    descriptors 0 and 1 are open and whose [fork] gives the parent the
    child's process id, the parent makes exactly the calls
    [dup2(w, 1)], [close(w)], [close(r)] and [execv] of the listing command
    after the fork, so that descriptor 1 is the write end and neither
    [r] nor [w] is open when the image is replaced; the child makes
    [dup2(r, 0)], [close(r)], [close(w)] and [execv] of [wc -l], so that
    descriptor 0 is the read end; neither makes any other call, the
    parent in particular none that waits. *)
Theorem C4_pipe_wiring env argv fdt0 r w :
  pipe_result env = Some (r, w) →
  fdt0 !! r = None → fdt0 !! w = None → r ≠ w →
  is_Some (fdt0 !! 0%Z) → is_Some (fdt0 !! 1%Z) →
  (0 < fork_result env)%Z →
  EvFork ∈ trace (run_main (elevated_proc_fd.main env argv)
                    elevated_proc_fd.frame0 fdt0).2 →
  let parent := run_main (elevated_proc_fd.main env argv)
                  elevated_proc_fd.frame0 fdt0 in
  let child := run_main (elevated_proc_fd.main (child_of env) argv)
                 elevated_proc_fd.frame0 fdt0 in
  ∃ before path args,
    (path = "/bin/ls" ∨ path = "/usr/bin/lsof") ∧
    elevated_proc_fd.exec_ready (locals parent.2) path args ∧
    trace parent.2 =
      before ++ [EvPipe; EvFork; EvDup2 w 1; EvClose w; EvClose r;
                 EvExecv path (elevated_proc_fd.ls_args (locals parent.2)) args] ∧
    trace child.2 =
      before ++ [EvPipe; EvFork; EvDup2 r 0; EvClose r; EvClose w;
                 EvExecv "/usr/bin/wc" elevated_proc_fd.wc_args ["wc"; "-l"]] ∧
    fds parent.2 = <[1%Z := PipeWrite]> fdt0 ∧
    fds parent.2 !! r = None ∧ fds parent.2 !! w = None ∧
    fds child.2 = <[0%Z := PipeRead]> fdt0 ∧
    fds child.2 !! r = None ∧ fds child.2 !! w = None ∧
    parent.1 = (if execv_ok env path then Replaced path args (fds parent.2)
                else Exited 0) ∧
    child.1 = (if execv_ok env "/usr/bin/wc"
               then Replaced "/usr/bin/wc" ["wc"; "-l"] (fds child.2)
               else Exited 0).
Proof.
  intros Hp Hr Hw Hrw H0 H1 Hpid Hfork. cbv zeta.
  assert (fork_result env ≠ 0%Z) as Hf by lia.
  destruct (proc_fd_past_builder env argv fdt0 EvFork Hfork)
    as (l & reads & path & args & _ & _ & Hrd & _ & Hpath & Hrun); [done|].
  rewrite !Hrun. unfold past_builder. cbn [fst snd locals fds trace].
  rewrite (compose_fds_parent env fdt0 r w) by done.
  rewrite (compose_fds_child (child_of env) fdt0 r w) by done.
  assert (r ≠ 0%Z) by (destruct H0; congruence).
  assert (w ≠ 0%Z) by (destruct H0; congruence).
  assert (r ≠ 1%Z) by (destruct H1; congruence).
  assert (w ≠ 1%Z) by (destruct H1; congruence).
  exists ((EvArgc :: reads) ++ elevate_trace env elevated_proc_fd.newcaps), path, args.
  unfold branch_outcome, branch_execv, compose_calls, pipe_fds_of.
  cbn [fork_result pipe_result child_of execv_ok]. rewrite Hp.
  rewrite !(decide_True (P := fork_result env ≠ 0%Z)) by done.
  rewrite !(decide_False (P := 0%Z ≠ 0%Z)) by (intros ?; done).
  cbn [fst snd].
  split_and!; try done.
  - by rewrite <- app_assoc.
  - by rewrite <- app_assoc.
  - by rewrite lookup_insert_ne.
  - by rewrite lookup_insert_ne.
  - by rewrite lookup_insert_ne.
  - by rewrite lookup_insert_ne.
Qed.

Lemma C4_pipe_wiring_witness :
  let parent := run_main (elevated_proc_fd.main env_ok ["elevated_proc_fd"; "1234"])
                  elevated_proc_fd.frame0 stdio in
  let child := run_main (elevated_proc_fd.main (child_of env_ok) ["elevated_proc_fd"; "1234"])
                 elevated_proc_fd.frame0 stdio in
  ∃ before path args,
    (path = "/bin/ls" ∨ path = "/usr/bin/lsof") ∧
    elevated_proc_fd.exec_ready (locals parent.2) path args ∧
    trace parent.2 =
      before ++ [EvPipe; EvFork; EvDup2 4 1; EvClose 4; EvClose 3;
                 EvExecv path (elevated_proc_fd.ls_args (locals parent.2)) args] ∧
    trace child.2 =
      before ++ [EvPipe; EvFork; EvDup2 3 0; EvClose 3; EvClose 4;
                 EvExecv "/usr/bin/wc" elevated_proc_fd.wc_args ["wc"; "-l"]] ∧
    fds parent.2 = <[1%Z := PipeWrite]> stdio ∧
    fds parent.2 !! 3%Z = None ∧ fds parent.2 !! 4%Z = None ∧
    fds child.2 = <[0%Z := PipeRead]> stdio ∧
    fds child.2 !! 3%Z = None ∧ fds child.2 !! 4%Z = None ∧
    parent.1 = (if execv_ok env_ok path then Replaced path args (fds parent.2)
                else Exited 0) ∧
    child.1 = (if execv_ok env_ok "/usr/bin/wc"
               then Replaced "/usr/bin/wc" ["wc"; "-l"] (fds child.2)
               else Exited 0).
Proof.
  apply (C4_pipe_wiring env_ok ["elevated_proc_fd"; "1234"] stdio 3 4).
  - reflexivity.
  - vm_compute. reflexivity.
  - vm_compute. reflexivity.
  - lia.
  - vm_compute. eexists. reflexivity.
  - vm_compute. eexists. reflexivity.
  - simpl. lia.
  - vm_compute. do 10 right. left.
Defined.

(** ** C5 *)

(** C5: in every variant, on every input that gets the run as far as the
    capability block, when the kernel refuses the raise of a capability of
    the variant the run is, call by call: the reads of the argument list,
    the inheritable load, the raises up to and including the first one
    refused, the message ["Fail!\n"], then, with no further raise and
    no abort, the wiring of the pipe (fd-count proxy) and the [execv] of
    the wrapped command; the process ends as that [execv] decides,
    replaced by the wrapped command or, if the call comes back, by
    [main] returning, never in a fault. *)
Theorem C5_refused_raise_prints_and_still_execs v env argv fdt0 P k :
  reaches_elevator v argv P →
  first_refused env (caps_of v) = Some k →
  let r := run v env argv fdt0 in
  let w := wrapped_command v env P in
  r.1.2 =
    argument_reads v P ++
    [EvCapGetProc; EvCapSetFlag CAP_INHERITABLE (caps_of v) CAP_SET;
     EvCapSetProc; EvCapFree] ++
    (EvAmbientRaise <$> take (S k) (caps_of v)) ++
    [EvPrintf ("Fail!" +:+ LF)] ++
    wiring_calls v env ++
    [EvExecv w.1.1 w.1.2 w.2] ∧
  r.1.1 = (if execv_ok env w.1.1 then Replaced w.1.1 w.2 r.2 else Exited 0).
Proof.
  intros Hreach Hk. cbv zeta.
  destruct (first_refused_spec env _ k Hk) as (c & Hc & Hr & Hg).
  assert (elevate_trace env (caps_of v) =
          [EvCapGetProc; EvCapSetFlag CAP_INHERITABLE (caps_of v) CAP_SET;
           EvCapSetProc; EvCapFree] ++
          (EvAmbientRaise <$> take (S k) (caps_of v)) ++ [EvPrintf ("Fail!" +:+ LF)])
    as Hel.
  { unfold elevate_trace. rewrite (ambient_trace_first_refusal env _ k c) by done.
    by destruct v. }
  destruct v.
  - unfold run, run_main. rewrite netstat_run, ended_launch.
    cbn [observe fst snd trace fds log wrapped_command argument_reads wiring_calls].
    change elevated_netstat.newcaps with (caps_of Netstat). rewrite Hel.
    split; [|done]. by rewrite <- !app_assoc.
  - unfold run, run_main. rewrite docker_stats_run, ended_launch.
    cbn [observe fst snd trace fds log wrapped_command argument_reads wiring_calls].
    change elevated_docker_stats.newcaps with (caps_of DockerStats). rewrite Hel.
    split; [|done]. by rewrite <- !app_assoc.
  - destruct Hreach as (Harg & HP & Hlen).
    destruct argv as [|a0 [|P' rest]]; [done|done|]. injection Harg as ->.
    unfold run, wrapped_command, argument_reads, wiring_calls.
    destruct (decide (P = "-1")) as [->|Hne].
    + rewrite (main_lsof env a0 "-1" rest fdt0) by done.
      unfold past_builder, observe, branch_outcome, branch_execv.
      cbn [fst snd locals fds trace elevated_proc_fd.ls_args].
      change elevated_proc_fd.newcaps with (caps_of ProcFd). rewrite Hel.
      case_decide; cbn [fst snd]; (split; [|done]); by rewrite <- !app_assoc.
    + destruct (main_fits env a0 P rest fdt0 HP Hne Hlen) as (tail & _ & ->).
      unfold past_builder, observe, branch_outcome, branch_execv.
      cbn [fst snd locals fds trace elevated_proc_fd.ls_args].
      change elevated_proc_fd.newcaps with (caps_of ProcFd). rewrite Hel.
      case_decide; cbn [fst snd]; (split; [|done]); by rewrite <- !app_assoc.
Qed.

Lemma C5_refused_raise_prints_and_still_execs_witness :
  let r := run ProcFd env_second_refused ["elevated_proc_fd"; "1234"] stdio in
  r.1.2 =
    [EvArgc; EvArgv 1; EvArgv 1;
     EvCapGetProc;
     EvCapSetFlag CAP_INHERITABLE [CAP_DAC_READ_SEARCH; CAP_SYS_PTRACE] CAP_SET;
     EvCapSetProc; EvCapFree;
     EvAmbientRaise CAP_DAC_READ_SEARCH; EvAmbientRaise CAP_SYS_PTRACE;
     EvPrintf ("Fail!" +:+ LF);
     EvPipe; EvFork; EvDup2 4 1; EvClose 4; EvClose 3;
     EvExecv "/bin/ls" elevated_proc_fd.ls_vector ["ls"; "/proc/1234/fd"]] ∧
  r.1.1 = Replaced "/bin/ls" ["ls"; "/proc/1234/fd"] r.2.
Proof.
  apply (C5_refused_raise_prints_and_still_execs ProcFd env_second_refused
           ["elevated_proc_fd"; "1234"] stdio "1234" 1).
  - simpl. split_and!; [reflexivity|done|done|done|done|done|lia].
  - reflexivity.
Defined.

(** The inputs named in C5 are all there are: a run of the fd-count proxy
    on C strings that makes a raise at all has an [argv[1]] of at most 22
    bytes. *)
Lemma raise_only_past_the_builder env argv fdt0 c :
  Forall nul_free argv →
  EvAmbientRaise c ∈ (run ProcFd env argv fdt0).1.2 →
  ∃ P, reaches_elevator ProcFd argv P.
Proof.
  intros Hnf Hin. destruct argv as [|a0 [|P rest]].
  - unfold run in Hin. rewrite main_no_argv in Hin. simpl in Hin.
    repeat (apply elem_of_cons in Hin as [Hin|Hin]; [done|]).
    by apply elem_of_nil in Hin.
  - unfold run in Hin. destruct (main_program_name_only env a0 fdt0) as [l Hl].
    rewrite Hl in Hin. simpl in Hin.
    repeat (apply elem_of_cons in Hin as [Hin|Hin]; [done|]).
    by apply elem_of_nil in Hin.
  - apply Forall_cons in Hnf as [_ Hnf]. apply Forall_cons in Hnf as [HP _].
    exists P. split_and!; [done|done|].
    destruct (decide (String.length P ≤ 22)) as [|Hlong]; [done|].
    destruct (decide (P = "-1")) as [->|Hne]; [simpl in Hlong; lia|].
    destruct (main_too_long env a0 P rest fdt0 HP Hne) as [l Hl]; [lia|].
    unfold run in Hin. rewrite Hl in Hin. simpl in Hin.
    repeat (apply elem_of_cons in Hin as [Hin|Hin]; [done|]).
    by apply elem_of_nil in Hin.
Qed.

(** ** C6 *)

(** C6, as stated, fails: the fd-count proxy reads [argc] first and makes
    its first capability call only after it has read [argv[1]]. *)
Lemma C6_counterexample :
  ¬ precedes is_cap is_arg (run ProcFd env_ok ["elevated_proc_fd"; "1234"] stdio).1.2.
Proof.
  intros H. specialize (H 3 0 EvCapGetProc EvArgc).
  assert (3 < 0); [|lia]. by apply H.
Qed.

(** C6 (amended): in every run of every variant each call of the
    capability block comes before each call that wires the pipe or
    replaces the image, and each read of the argument list comes before
    each call of the capability block; the netstat and docker-stats
    proxies read no argument at all. *)
Theorem C6_arguments_then_capabilities_then_launch v env argv fdt0 :
  let t := (run v env argv fdt0).1.2 in
  precedes is_cap is_launch t ∧
  precedes is_arg is_cap t ∧
  match v with
  | ProcFd => True
  | _ => Forall (λ e, is_arg e = false) t
  end.
Proof.
  cbv zeta. split_and!.
  - destruct (run_shape v env argv fdt0) as [[Hearly _]|Hreach].
    { apply precedes_without_first. eapply Forall_impl; [exact Hearly|]. by intros ? []. }
    destruct Hreach as (reads & wiring & path & vector & args & _ & -> & Hr & Hw & _).
    destruct (reached_kinds env (caps_of v) reads wiring (EvExecv path vector args) Hr Hw)
      as (K1 & K2 & K3); [done|].
    rewrite (app_assoc reads). apply precedes_app.
    + apply Forall_app. split; (eapply Forall_impl; [eassumption|]); by intros ? [].
    + eapply Forall_impl; [exact K3|]. by intros ? [].
  - destruct (run_shape v env argv fdt0) as [[Hearly _]|Hreach].
    { apply precedes_without_second. eapply Forall_impl; [exact Hearly|]. by intros ? []. }
    destruct Hreach as (reads & wiring & path & vector & args & _ & -> & Hr & Hw & _).
    destruct (reached_kinds env (caps_of v) reads wiring (EvExecv path vector args) Hr Hw)
      as (K1 & K2 & K3); [done|].
    apply precedes_app.
    + eapply Forall_impl; [exact K1|]. by intros ? [].
    + apply Forall_app. split; (eapply Forall_impl; [eassumption|]); by intros ? [].
  - destruct v; [| |done]; unfold run, run_main.
    + rewrite netstat_run, ended_launch. cbn [observe fst snd trace log].
      apply Forall_app. split; [|by repeat constructor].
      eapply Forall_impl; [apply elevate_trace_kinds|]. by intros ? [].
    + rewrite docker_stats_run, ended_launch. cbn [observe fst snd trace log].
      apply Forall_app. split; [|by repeat constructor].
      eapply Forall_impl; [apply elevate_trace_kinds|]. by intros ? [].
Qed.

(** ** C7 *)

(** C7, as stated, fails: the argument ["abc"] is neither ["-1"] nor a
    decimal number, and the proxy builds ["/proc/abc/fd"] and replaces
    itself with [ls] on it. *)
Lemma C7_counterexample :
  spec_valid_pid "abc" = false ∧ "abc" ≠ "-1" ∧
  (run ProcFd env_ok ["elevated_proc_fd"; "abc"] stdio).1.1 =
    Replaced "/bin/ls" ["ls"; "/proc/abc/fd"] (<[1%Z := PipeWrite]> stdio).
Proof. split_and!; [done|done|]. by vm_compute. Qed.

(** C7 (amended): the fd-count proxy does not validate its first
    argument.  For every first argument [P] other than ["-1"] of at most
    22 bytes, decimal or not, it prints no usage message and ends in the
    [execv] call of its branch, which in the parent of the fork is [ls]
    on ["/proc/" + P + "/fd"]. *)
Theorem C7_argument_is_not_validated env a0 P rest fdt0 :
  nul_free P → P ≠ "-1" → String.length P ≤ 22 →
  let r := run ProcFd env (a0 :: P :: rest) fdt0 in
  ¬ (EvPrintf elevated_proc_fd.usage ∈ r.1.2) ∧
  r.1.1 = branch_outcome env r.2 "/bin/ls" ["ls"; "/proc/" +:+ P +:+ "/fd"].
Proof.
  intros HP Hne Hlen. cbv zeta. unfold run.
  destruct (main_fits env a0 P rest fdt0 HP Hne Hlen) as (tail & _ & ->).
  unfold past_builder, observe. cbn [fst snd locals fds trace].
  split; [|done]. intros Hin.
  rewrite !elem_of_app in Hin. destruct Hin as [Hin|[Hin|[Hin|Hin]]].
  - repeat (apply elem_of_cons in Hin as [Hin|Hin]; [done|]).
    by apply elem_of_nil in Hin.
  - unfold elevate_trace, elevated_proc_fd.newcaps in Hin. simpl in Hin.
    repeat case_decide;
      repeat (apply elem_of_cons in Hin as [Hin|Hin]; [done|]);
      by apply elem_of_nil in Hin.
  - pose proof (compose_calls_wiring env) as Hw.
    rewrite Forall_forall in Hw. by destruct (Hw _ Hin).
  - apply list_elem_of_singleton in Hin. unfold branch_execv in Hin. by case_decide.
Qed.

Lemma C7_argument_is_not_validated_witness :
  ¬ (EvPrintf elevated_proc_fd.usage
       ∈ (run ProcFd env_ok ["elevated_proc_fd"; "abc"] stdio).1.2) ∧
  (run ProcFd env_ok ["elevated_proc_fd"; "abc"] stdio).1.1 =
    branch_outcome env_ok (run ProcFd env_ok ["elevated_proc_fd"; "abc"] stdio).2
      "/bin/ls" ["ls"; "/proc/abc/fd"].
Proof.
  apply (C7_argument_is_not_validated env_ok "elevated_proc_fd" "abc" [] stdio).
  - simpl. split_and!; done.
  - done.
  - simpl. lia.
Defined.

(** ** C8 *)

(** C8, as stated, fails: when [execv] comes back, [main] of the netstat
    proxy runs into its closing brace and the process exits with
    status 0. *)
Lemma C8_counterexample :
  EvExecv "/bin/netstat" elevated_netstat.param ["netstat"; "-tnap"]
    ∈ (run Netstat env_noexec [] stdio).1.2 ∧
  execv_ok env_noexec "/bin/netstat" = false ∧
  (run Netstat env_noexec [] stdio).1.1 = Exited 0.
Proof.
  split_and!; [|done|done]. vm_compute. do 6 right. left.
Qed.

(** C8 (amended): in every variant, when the [execv] call of a run fails,
    that call is the last call the process makes, and the process exits
    with status 0. *)
Theorem C8_failed_execv_exits_zero v env argv fdt0 path vector args :
  let r := run v env argv fdt0 in
  EvExecv path vector args ∈ r.1.2 → execv_ok env path = false →
  last r.1.2 = Some (EvExecv path vector args) ∧ r.1.1 = Exited 0.
Proof.
  cbv zeta. intros Hin Hfail.
  destruct (run_shape v env argv fdt0) as [[Hearly _]|Hreach].
  { rewrite Forall_forall in Hearly. by destruct (Hearly _ Hin). }
  destruct Hreach as (reads & wiring & p & vec & a & Ho & Ht & Hr & Hw & _).
  rewrite Ht in Hin. apply execv_is_last in Hin; [|done..].
  injection Hin as -> -> ->. rewrite Ho, Ht, Hfail. split; [|done].
  by rewrite !app_assoc, last_snoc.
Qed.

Lemma C8_failed_execv_witness :
  last (run Netstat env_noexec [] stdio).1.2 =
    Some (EvExecv "/bin/netstat" elevated_netstat.param ["netstat"; "-tnap"]) ∧
  (run Netstat env_noexec [] stdio).1.1 = Exited 0.
Proof.
  apply (C8_failed_execv_exits_zero Netstat env_noexec [] stdio).
  - vm_compute. do 6 right. left.
  - reflexivity.
Defined.

(** ** C9 *)

(** C9, as stated, fails: the vector the netstat proxy hands to [execv]
    starts with the command name ["netstat"], not with the path
    ["/bin/netstat"] of the binary. *)
Lemma C9_counterexample :
  EvExecv "/bin/netstat" elevated_netstat.param ["netstat"; "-tnap"]
    ∈ (run Netstat env_ok [] stdio).1.2 ∧
  ["netstat"; "-tnap"] !! 0 ≠ Some "/bin/netstat".
Proof. split; [|done]. vm_compute. do 6 right. left. Qed.

(** C9 (amended): every vector handed to [execv], in every variant and
    on every path, has at most 64 entries, ends in a null entry behind
    the strings that were read, and starts with the name of the command
    (the part of the target path behind its last slash) or, for [lsof],
    with the target path itself.  It is an array initialised where it is
    declared ([param], [wc_args]) or it is [ls_args] as the command
    builder left it, and then the frame of [main] at the end of the run
    is still the frame the command builder left. *)
Theorem C9_vectors_are_terminated_and_stable v env argv fdt0 path vector args :
  EvExecv path vector args ∈ (run v env argv fdt0).1.2 →
  well_formed_call path vector args ∧
  match v with
  | Netstat => vector = elevated_netstat.param
  | DockerStats => vector = elevated_docker_stats.param
  | ProcFd =>
      vector = elevated_proc_fd.wc_args ∨
      ∃ st,
        elevated_proc_fd.build_command argv (Proc elevated_proc_fd.frame0 fdt0 [EvArgc]) =
          (Ret (), st) ∧
        locals (run_main (elevated_proc_fd.main env argv)
                  elevated_proc_fd.frame0 fdt0).2 = locals st ∧
        vector = elevated_proc_fd.ls_args (locals st) ∧
        elevated_proc_fd.exec_ready (locals st) path args
  end.
Proof.
  intros Hin. split.
  - destruct (run_shape v env argv fdt0) as [[Hearly _]|Hreach].
    { rewrite Forall_forall in Hearly. by destruct (Hearly _ Hin). }
    destruct Hreach as (reads & wiring & p & vec & a & _ & Ht & Hr & Hw & Hwf).
    rewrite Ht in Hin. apply execv_is_last in Hin; [|done..].
    by injection Hin as -> -> ->.
  - destruct v; unfold run, run_main in Hin.
    + rewrite netstat_run, ended_launch in Hin. cbn [observe fst snd trace log] in Hin.
      apply (execv_is_last env _ [] []) in Hin; [|done..]. by injection Hin as -> -> ->.
    + rewrite docker_stats_run, ended_launch in Hin.
      cbn [observe fst snd trace log] in Hin.
      apply (execv_is_last env _ [] []) in Hin; [|done..]. by injection Hin as -> -> ->.
    + fold (run_main (elevated_proc_fd.main env argv) elevated_proc_fd.frame0 fdt0) in *.
      cbn [observe fst snd] in Hin.
      destruct (proc_fd_past_builder env argv fdt0 _ Hin)
        as (l & reads & p & a & Hb & Hr & Hrd & _ & _ & Hrun); [done|].
      rewrite Hrun in Hin |- *. unfold past_builder in Hin |- *.
      cbn [fst snd locals fds trace] in Hin |- *.
      apply (execv_is_last env _ (EvArgc :: reads)) in Hin;
        [|by constructor|apply compose_calls_wiring|done].
      unfold branch_execv in Hin. case_decide.
      * right. injection Hin as -> -> ->. by eexists (Proc l fdt0 (EvArgc :: reads)).
      * left. by injection Hin as -> -> ->.
Qed.

Lemma C9_vectors_witness :
  well_formed_call "/bin/netstat" elevated_netstat.param ["netstat"; "-tnap"] ∧
  elevated_netstat.param = elevated_netstat.param.
Proof.
  apply (C9_vectors_are_terminated_and_stable Netstat env_ok [] stdio).
  vm_compute. do 6 right. left.
Defined.

(** ** C10 *)

(** C10: for a first argument [P] other than ["-1"], the three copies
    into the 32-byte array [procFDParam] stay inside it exactly when [P]
    has at most 22 bytes: then the array, still 32 cells long, holds the 6
    bytes of ["/proc/"], the bytes of [P], the 3 bytes of ["/fd"] and the
    terminator; for every longer [P] a copy writes behind the array. *)
Theorem C10_path_fits_iff_at_most_22_bytes env a0 P rest fdt0 :
  nul_free P → P ≠ "-1" →
  let r := run_main (elevated_proc_fd.main env (a0 :: P :: rest))
             elevated_proc_fd.frame0 fdt0 in
  (r.1 = Undefined (BufferOverflow BprocFDParam) ↔ 22 < String.length P) ∧
  (String.length P ≤ 22 →
   length (elevated_proc_fd.procFDParam (locals r.2)) = 32 ∧
   ∃ tail, elevated_proc_fd.procFDParam (locals r.2) =
             (Some <$> String.list_ascii_of_string ("/proc/" +:+ P +:+ "/fd")) ++
             Some NUL :: tail ∧
           6 + String.length P + 3 + 1 + length tail = 32).
Proof.
  intros HP Hne. cbv zeta.
  destruct (decide (String.length P ≤ 22)) as [Hfit|Hlong].
  - destruct (main_fits env a0 P rest fdt0 HP Hne Hfit) as (tail & Hlen & ->).
    unfold past_builder. cbn [fst snd locals fds trace elevated_proc_fd.procFDParam].
    split.
    + split; [|lia]. unfold branch_outcome. repeat case_match; done.
    + intros _. split; [done|]. exists tail. split; [done|].
      rewrite length_app, length_fmap, length_cons in Hlen.
      rewrite !chars_app, !length_app, !chars_length in Hlen. simpl in Hlen. lia.
  - destruct (main_too_long env a0 P rest fdt0 HP Hne) as [l ->]; [lia|].
    cbn [fst]. split; [split; [lia|done]|lia].
Qed.

Lemma C10_path_fits_witness :
  let r := run_main (elevated_proc_fd.main env_ok ["elevated_proc_fd"; "1234"])
             elevated_proc_fd.frame0 stdio in
  (r.1 = Undefined (BufferOverflow BprocFDParam) ↔ 22 < String.length "1234") ∧
  (String.length "1234" ≤ 22 →
   length (elevated_proc_fd.procFDParam (locals r.2)) = 32 ∧
   ∃ tail, elevated_proc_fd.procFDParam (locals r.2) =
             (Some <$> String.list_ascii_of_string ("/proc/" +:+ "1234" +:+ "/fd")) ++
             Some NUL :: tail ∧
           6 + String.length "1234" + 3 + 1 + length tail = 32).
Proof.
  apply (C10_path_fits_iff_at_most_22_bytes env_ok "elevated_proc_fd" "1234" [] stdio).
  - simpl. split_and!; done.
  - done.
Defined.

(** * Further properties *)

(** Membership in a list that was computed. *)
Ltac absent H :=
  simpl in H; repeat (apply elem_of_cons in H as [H|H]; [done|]);
  by apply elem_of_nil in H.

Lemma run_proc_fd_table env argv fdt0 :
  run ProcFd env argv fdt0 = proc_fd_table env argv fdt0.
Proof.
  unfold run, proc_fd_table. destruct argv as [|a0 [|P rest]].
  - by rewrite main_no_argv.
  - by destruct (main_program_name_only env a0 fdt0) as [l ->].
  - case_decide as Hc.
    + by rewrite (main_lsof env a0 P rest fdt0 Hc).
    + destruct (elevated_proc_fd.proc_path P) as [b|] eqn:Hb.
      * destruct (main_ls env a0 P rest fdt0 b Hc Hb) as (s & -> & ->). done.
      * by destruct (main_overflow env a0 P rest fdt0 Hc Hb) as [l ->].
Qed.

(** The four kinds of run of [elevated_proc_fd.c]. *)
Lemma proc_fd_kinds env argv fdt0 :
  (argv = [] ∧
   run ProcFd env argv fdt0 =
     (Exited 255, [EvArgc; EvPrintf elevated_proc_fd.usage], fdt0)) ∨
  (length argv = 1 ∧
   run ProcFd env argv fdt0 = (Undefined NullDereference, [EvArgc; EvArgv 1], fdt0)) ∨
  (2 ≤ length argv ∧
   run ProcFd env argv fdt0 =
     (Undefined (BufferOverflow BprocFDParam), [EvArgc; EvArgv 1; EvArgv 1], fdt0)) ∨
  (2 ≤ length argv ∧
   ∃ l reads path args,
     Forall (λ e, is_arg e = true) reads ∧
     (path = "/bin/ls" ∨ path = "/usr/bin/lsof") ∧
     run ProcFd env argv fdt0 = observe (past_builder env l fdt0 reads path args)).
Proof.
  rewrite run_proc_fd_table. unfold proc_fd_table.
  destruct argv as [|a0 [|P rest]]; [by left|by right; left|].
  do 2 right. case_decide.
  - right. split; [simpl; lia|]. eexists _, [EvArgv 1], _, _.
    split_and!; [repeat constructor|by right|done].
  - destruct (elevated_proc_fd.proc_path P) as [b|]; [|left; split; [simpl; lia|done]].
    destruct (c_str b) as [s|]; [|left; split; [simpl; lia|done]].
    right. split; [simpl; lia|]. eexists _, [EvArgv 1; EvArgv 1], _, _.
    split_and!; [repeat constructor|by left|done].
Qed.

Lemma past_builder_no_usage env l fdt0 reads path args :
  Forall (λ e, is_arg e = true) reads →
  ¬ (EvPrintf elevated_proc_fd.usage ∈ trace (past_builder env l fdt0 reads path args).2).
Proof.
  intros Hr Hin. unfold past_builder in Hin. cbn [snd trace] in Hin.
  rewrite !elem_of_app in Hin. destruct Hin as [Hin|[Hin|[Hin|Hin]]].
  - apply elem_of_cons in Hin as [?|Hin]; [done|].
    rewrite Forall_forall in Hr. by specialize (Hr _ Hin).
  - unfold elevate_trace, elevated_proc_fd.newcaps in Hin. simpl in Hin.
    repeat case_decide;
      repeat (apply elem_of_cons in Hin as [Hin|Hin]; [done|]);
      by apply elem_of_nil in Hin.
  - pose proof (compose_calls_wiring env) as Hw.
    rewrite Forall_forall in Hw. by destruct (Hw _ Hin).
  - apply list_elem_of_singleton in Hin. unfold branch_execv in Hin. by case_decide.
Qed.

Lemma branch_outcome_not_255 env fdt path args :
  branch_outcome env fdt path args ≠ Exited 255.
Proof. unfold branch_outcome. repeat case_match; done. Qed.

(** ** [set_ambient_caps] on any array *)

Section Loop.
Context (env : Env) {L : Type} `{!Frame L}.
Implicit Types (st : proc L).

Lemma set_ambient_caps_loop_within cs : ∀ todo i st,
  i + todo ≤ length cs →
  set_ambient_caps_loop env cs i todo st =
    (Ret (), log st (ambient_trace env (take todo (drop i cs)))).
Proof.
  induction todo as [|todo IH]; intros i st Hlen; simpl.
  - by rewrite log_nil.
  - destruct (lookup_lt_is_Some_2 cs i) as [c Hc]; [lia|].
    rewrite Hc, (drop_S _ _ _ Hc). simpl.
    unfold bind, prctl_ambient_raise, bind, emit, ret, printf, emit.
    case_decide.
    + by rewrite log_log.
    + rewrite IH by lia. by rewrite log_log.
Qed.

Lemma set_ambient_caps_loop_beyond cs : ∀ todo i st,
  i ≤ length cs → length cs < i + todo → Forall (granted env) (drop i cs) →
  set_ambient_caps_loop env cs i todo st =
    (Halt (Undefined OutOfBoundsRead), log st (EvAmbientRaise <$> drop i cs)).
Proof.
  induction todo as [|todo IH]; intros i st Hi Hlen Hg; [lia|]. simpl.
  destruct (cs !! i) as [c|] eqn:Hc.
  - rewrite (drop_S _ _ _ Hc) in Hg |- *. apply Forall_cons in Hg as [Hgc Hg].
    unfold granted in Hgc.
    unfold bind, prctl_ambient_raise, bind, emit, ret.
    rewrite decide_False by (intros ?; done).
    apply lookup_lt_Some in Hc.
    rewrite IH by (done || lia). by rewrite log_log.
  - apply lookup_ge_None in Hc. rewrite drop_ge by done.
    by rewrite log_nil.
Qed.
End Loop.

(** X1: when the kernel grants every raise, [set_ambient_caps] on the
    first [num_elem] entries of any array raises them one after the other
    in array order, prints nothing, returns, and leaves the memory and the
    descriptors of the process as they were. *)
Theorem X1_set_ambient_caps_all_granted {L} `{!Frame L} env (newcaps : list cap)
    num_elem (st : proc L) :
  num_elem ≤ length newcaps → Forall (granted env) (take num_elem newcaps) →
  set_ambient_caps env newcaps num_elem st =
    (Ret (), Proc (locals st) (fds st)
               (trace st ++ (EvAmbientRaise <$> take num_elem newcaps))).
Proof.
  intros Hlen Hg. unfold set_ambient_caps.
  rewrite set_ambient_caps_loop_within by done.
  by rewrite drop_0, ambient_trace_granted.
Qed.

Lemma X1_set_ambient_caps_all_granted_witness :
  set_ambient_caps env_ok [CAP_SYS_PTRACE; CAP_DAC_OVERRIDE; CAP_DAC_READ_SEARCH] 2
    (Proc () stdio []) =
    (Ret (), Proc () stdio [EvAmbientRaise CAP_SYS_PTRACE; EvAmbientRaise CAP_DAC_OVERRIDE]).
Proof.
  apply (X1_set_ambient_caps_all_granted env_ok
           [CAP_SYS_PTRACE; CAP_DAC_OVERRIDE; CAP_DAC_READ_SEARCH] 2 (Proc () stdio [])).
  - simpl. lia.
  - simpl. repeat constructor.
Defined.

(** X2: when the raise of entry [k] is the first the kernel refuses,
    [set_ambient_caps] makes the raises of entries 0 to [k], prints
    ["Fail!\n"] once, returns without a fault, and never asks for any of
    the entries behind [k]. *)
Theorem X2_set_ambient_caps_stops_at_first_refusal {L} `{!Frame L} env
    (newcaps : list cap) num_elem k c (st : proc L) :
  num_elem ≤ length newcaps → k < num_elem →
  newcaps !! k = Some c → ¬ granted env c → Forall (granted env) (take k newcaps) →
  set_ambient_caps env newcaps num_elem st =
    (Ret (), Proc (locals st) (fds st)
               (trace st ++ (EvAmbientRaise <$> take (S k) newcaps) ++
                [EvPrintf ("Fail!" +:+ LF)])).
Proof.
  intros Hlen Hk Hc Hr Hg. unfold set_ambient_caps.
  rewrite set_ambient_caps_loop_within by done. rewrite drop_0.
  rewrite (ambient_trace_first_refusal env _ k c).
  - by rewrite take_take, Nat.min_l by lia.
  - by rewrite lookup_take_lt.
  - done.
  - by rewrite take_take, Nat.min_l by lia.
Qed.

Lemma X2_set_ambient_caps_stops_witness :
  set_ambient_caps env_second_refused
    [CAP_DAC_READ_SEARCH; CAP_SYS_PTRACE; CAP_DAC_OVERRIDE] 3 (Proc () stdio []) =
    (Ret (), Proc () stdio [EvAmbientRaise CAP_DAC_READ_SEARCH;
                            EvAmbientRaise CAP_SYS_PTRACE; EvPrintf ("Fail!" +:+ LF)]).
Proof.
  apply (X2_set_ambient_caps_stops_at_first_refusal env_second_refused
           [CAP_DAC_READ_SEARCH; CAP_SYS_PTRACE; CAP_DAC_OVERRIDE] 3 1 CAP_SYS_PTRACE
           (Proc () stdio [])).
  - simpl. lia.
  - lia.
  - reflexivity.
  - unfold granted. simpl. lia.
  - simpl. repeat constructor.
Defined.

(** X3: [set_ambient_caps] trusts [num_elem].  Told of more entries than
    the array has, on a kernel that grants every raise, it raises every
    entry of the array and then reads [newcaps[i]] behind the array's
    end; no message is printed. *)
Theorem X3_set_ambient_caps_reads_behind_the_array {L} `{!Frame L} env
    (newcaps : list cap) num_elem (st : proc L) :
  length newcaps < num_elem → Forall (granted env) newcaps →
  set_ambient_caps env newcaps num_elem st =
    (Halt (Undefined OutOfBoundsRead),
     Proc (locals st) (fds st) (trace st ++ (EvAmbientRaise <$> newcaps))).
Proof.
  intros Hlen Hg. unfold set_ambient_caps.
  rewrite set_ambient_caps_loop_beyond; [by rewrite drop_0|lia|lia|by rewrite drop_0].
Qed.

Lemma X3_set_ambient_caps_reads_behind_witness :
  set_ambient_caps env_ok [CAP_DAC_READ_SEARCH; CAP_SYS_PTRACE] 3 (Proc () stdio []) =
    (Halt (Undefined OutOfBoundsRead),
     Proc () stdio [EvAmbientRaise CAP_DAC_READ_SEARCH; EvAmbientRaise CAP_SYS_PTRACE]).
Proof.
  apply (X3_set_ambient_caps_reads_behind_the_array env_ok
           [CAP_DAC_READ_SEARCH; CAP_SYS_PTRACE] 3 (Proc () stdio [])).
  - simpl. lia.
  - repeat constructor.
Defined.

(** ** The argument list of the fd-count proxy *)

(** X4: the guard of the fd-count proxy fires for the empty argument list
    (argc = 0) and for no other: exactly then the usage message is
    printed, and exactly then the process exits with status 255; it has
    then made no other call. *)
Theorem X4_usage_exactly_for_empty_argv env argv fdt0 :
  let r := run ProcFd env argv fdt0 in
  (EvPrintf elevated_proc_fd.usage ∈ r.1.2 ↔ argv = []) ∧
  (r.1.1 = Exited 255 ↔ argv = []) ∧
  run ProcFd env [] fdt0 =
    (Exited 255, [EvArgc; EvPrintf elevated_proc_fd.usage], fdt0).
Proof.
  cbv zeta. split_and!; [| |by rewrite run_proc_fd_table].
  - destruct (proc_fd_kinds env argv fdt0)
      as [[-> ->]|[[Hl ->]|[[Hl ->]|(Hl & l & reads & path & args & Hr & _ & ->)]]].
    + split; [done|]. intros _. cbn [fst snd]. do 1 right; left.
    + split; [intros Hin; absent Hin|]. intros ->; simpl in Hl; lia.
    + split; [intros Hin; absent Hin|]. intros ->; simpl in Hl; lia.
    + split; [|intros ->; simpl in Hl; lia]. intros Hin. by apply past_builder_no_usage in Hin.
  - destruct (proc_fd_kinds env argv fdt0)
      as [[-> ->]|[[Hl ->]|[[Hl ->]|(Hl & l & reads & path & args & Hr & _ & ->)]]].
    + done.
    + split; [done|]. intros ->; simpl in Hl; lia.
    + split; [done|]. intros ->; simpl in Hl; lia.
    + split; [|intros ->; simpl in Hl; lia]. intros Ho. by apply branch_outcome_not_255 in Ho.
Qed.

(** X5: of its argument list the fd-count proxy uses [argv[1]] and
    nothing else: the program name and any arguments behind the first
    change neither the calls it makes nor the way it ends. *)
Theorem X5_only_the_first_argument_counts env a0 a0' P rest rest' fdt0 :
  run ProcFd env (a0 :: P :: rest) fdt0 = run ProcFd env (a0' :: P :: rest') fdt0 ∧
  run ProcFd env [a0] fdt0 = run ProcFd env [a0'] fdt0.
Proof. by rewrite !run_proc_fd_table. Qed.

(** ** Failures of [pipe] and [fork], and low descriptors *)

Lemma compose_fds_other env t fd :
  fd ≠ redirected env → fd ≠ (pipe_fds_of env).1 → fd ≠ (pipe_fds_of env).2 →
  compose_fds env t !! fd = t !! fd.
Proof.
  unfold redirected, compose_fds, pipe_fds_of, fd_pipe, fd_dup2, fd_close.
  destruct (pipe_result env) as [[r w]|]; cbn [fst snd]; intros H1 H2 H3;
    case_decide; repeat case_match; by simplify_map_eq.
Qed.

Lemma compose_fds_no_pipe env t a b :
  pipe_result env = None → pipe_fds_junk env = (a, b) →
  t !! a = None → t !! b = None → compose_fds env t = t.
Proof.
  intros Hp Hj Ha Hb.
  unfold compose_fds, pipe_fds_of, fd_pipe, fd_dup2, fd_close.
  rewrite Hp, Hj. cbn [fst snd]. rewrite Ha, Hb.
  case_decide; by rewrite !(delete_id t) by done.
Qed.

Lemma compose_fds_redirected env t r w :
  pipe_result env = Some (r, w) → r = redirected env ∨ w = redirected env →
  compose_fds env t !! redirected env = None.
Proof.
  intros Hp Hrw.
  unfold compose_fds, pipe_fds_of, fd_pipe, fd_close. rewrite Hp. cbn [fst snd].
  unfold redirected in *. destruct (decide (fork_result env ≠ 0%Z)) as [Hf|Hf].
  - destruct Hrw as [-> | ->]; [by rewrite lookup_delete_eq|].
    destruct (decide (r = 1%Z)) as [->|]; [by rewrite lookup_delete_eq|].
    by rewrite lookup_delete_ne, lookup_delete_eq.
  - destruct Hrw as [-> | ->]; [|by rewrite lookup_delete_eq].
    destruct (decide (w = 0%Z)) as [->|]; [by rewrite lookup_delete_eq|].
    by rewrite lookup_delete_ne, lookup_delete_eq.
Qed.

(** A run of [elevated_proc_fd.c] that forks, as [run] shows it. *)
Lemma forked_run env argv fdt0 :
  EvFork ∈ (run ProcFd env argv fdt0).1.2 →
  ∃ l reads path args,
    Forall (λ e, is_arg e = true) reads ∧
    (path = "/bin/ls" ∨ path = "/usr/bin/lsof") ∧
    ∀ env', run ProcFd env' argv fdt0 =
              observe (past_builder env' l fdt0 reads path args).
Proof.
  intros Hin.
  destruct (proc_fd_past_builder env argv fdt0 EvFork Hin)
    as (l & reads & path & args & _ & Hr & _ & _ & Hpath & Hrun); [done|].
  exists l, reads, path, args. split_and!; [done..|].
  intros env'. unfold run. by rewrite Hrun.
Qed.

(** X6: the fd-count proxy does not look at the result of [pipe].  When
    [pipe] fails and the two numbers left in [pipe_fds] name no open
    descriptor, the process still forks, calls [dup2] and [close] on
    those numbers to no effect, and goes on to [execv]: the listing
    command (parent) or [wc -l] (child) starts with exactly the
    descriptors the caller passed in, so nothing connects the two. *)
Theorem X6_failed_pipe_goes_unnoticed env argv fdt0 a b :
  pipe_result env = None → pipe_fds_junk env = (a, b) →
  fdt0 !! a = None → fdt0 !! b = None →
  EvFork ∈ (run ProcFd env argv fdt0).1.2 →
  let r := run ProcFd env argv fdt0 in
  r.2 = fdt0 ∧
  ∃ before path vector args,
    path ∈ targets ProcFd ∧
    r.1.2 = before ++
      (if decide (fork_result env ≠ 0%Z)
       then [EvPipe; EvFork; EvDup2 b 1; EvClose b; EvClose a]
       else [EvPipe; EvFork; EvDup2 a 0; EvClose a; EvClose b]) ++
      [EvExecv path vector args] ∧
    r.1.1 = (if execv_ok env path then Replaced path args fdt0 else Exited 0).
Proof.
  intros Hp Hj Ha Hb Hin. cbv zeta.
  destruct (forked_run env argv fdt0 Hin) as (l & reads & path & args & _ & Hpath & Hrun).
  rewrite !Hrun. unfold past_builder, observe. cbn [fst snd locals fds trace].
  rewrite (compose_fds_no_pipe env fdt0 a b) by done. split; [done|].
  unfold branch_outcome, branch_execv, compose_calls, pipe_fds_of.
  rewrite Hp, Hj. cbn [fst snd].
  exists ((EvArgc :: reads) ++ elevate_trace env elevated_proc_fd.newcaps).
  case_decide.
  - exists path, (elevated_proc_fd.ls_args l), args. split_and!; [|by rewrite <- app_assoc|done].
    destruct Hpath as [-> | ->]; simpl; [left|right; left].
  - exists "/usr/bin/wc", elevated_proc_fd.wc_args, ["wc"; "-l"].
    split_and!; [|by rewrite <- app_assoc|done]. simpl. do 2 right. left.
Qed.

Lemma X6_failed_pipe_witness :
  let r := run ProcFd env_nopipe ["elevated_proc_fd"; "1234"] stdio in
  r.2 = stdio ∧
  ∃ before path vector args,
    path ∈ targets ProcFd ∧
    r.1.2 = before ++ [EvPipe; EvFork; EvDup2 8 1; EvClose 8; EvClose 7] ++
            [EvExecv path vector args] ∧
    r.1.1 = (if execv_ok env_nopipe path then Replaced path args stdio else Exited 0).
Proof.
  apply (X6_failed_pipe_goes_unnoticed env_nopipe ["elevated_proc_fd"; "1234"] stdio 7 8).
  - reflexivity.
  - reflexivity.
  - vm_compute. reflexivity.
  - vm_compute. reflexivity.
  - vm_compute. do 10 right. left.
Defined.

(** X7: the fd-count proxy does not tell a failed [fork] from a
    successful one.  When [fork] returns -1 the process makes the same
    calls and ends the same way as the parent of a successful fork: it
    redirects its standard output into the pipe and calls [execv] on the
    listing command, with no child to read the pipe. *)
Theorem X7_failed_fork_runs_the_parent_branch env argv fdt0 pid :
  (0 < pid)%Z →
  run ProcFd (with_fork env (-1)) argv fdt0 = run ProcFd (with_fork env pid) argv fdt0.
Proof.
  intros Hpid. rewrite !run_proc_fd_table. unfold proc_fd_table.
  assert (∀ l reads path args,
            observe (past_builder (with_fork env (-1)) l fdt0 reads path args) =
            observe (past_builder (with_fork env pid) l fdt0 reads path args)) as Heq.
  { intros. unfold past_builder, observe, branch_outcome, branch_execv,
      compose_calls, compose_fds, pipe_fds_of.
    cbn [with_fork fork_result pipe_result pipe_fds_junk execv_ok fst snd locals fds trace].
    rewrite !(decide_True (P := (-1)%Z ≠ 0%Z)) by done.
    by rewrite !(decide_True (P := pid ≠ 0%Z)) by lia. }
  destruct argv as [|a0 [|P rest]]; [done|done|].
  repeat case_match; done.
Qed.

Lemma X7_failed_fork_witness :
  run ProcFd (with_fork env_ok (-1)) ["elevated_proc_fd"; "1234"] stdio =
  run ProcFd (with_fork env_ok 4242) ["elevated_proc_fd"; "1234"] stdio.
Proof.
  apply (X7_failed_fork_runs_the_parent_branch env_ok ["elevated_proc_fd"; "1234"] stdio 4242).
  lia.
Defined.

(** X8: when [pipe] hands out the very descriptor a branch redirects (1
    in the parent, 0 in the child) as one of the two ends, which it does
    when the caller left that descriptor closed, the [close] calls that
    follow [dup2] close it again: the new image starts without its
    standard output (parent) or standard input (child). *)
Theorem X8_low_pipe_descriptor_gets_closed env argv fdt0 r w :
  pipe_result env = Some (r, w) →
  r = redirected env ∨ w = redirected env →
  EvFork ∈ (run ProcFd env argv fdt0).1.2 →
  (run ProcFd env argv fdt0).2 !! redirected env = None.
Proof.
  intros Hp Hrw Hin.
  destruct (forked_run env argv fdt0 Hin) as (l & reads & path & args & _ & _ & ->).
  unfold past_builder, observe. cbn [fst snd locals fds trace].
  by apply (compose_fds_redirected env fdt0 r w).
Qed.

Lemma X8_low_pipe_descriptor_witness :
  (run ProcFd env_low_pipe ["elevated_proc_fd"; "1234"] (inherited [2%Z])).2 !! 1%Z = None.
Proof.
  apply (X8_low_pipe_descriptor_gets_closed env_low_pipe ["elevated_proc_fd"; "1234"]
           (inherited [2%Z]) 0 1).
  - reflexivity.
  - right. reflexivity.
  - vm_compute. do 10 right. left.
Defined.

(** X9: whatever happens, the proxies leave alone every descriptor other
    than the one the branch redirects and the two [pipe_fds] names: in
    particular standard error reaches the new image as the caller passed
    it, whether [pipe] and [fork] succeed or not. *)
Theorem X9_other_descriptors_are_passed_on v env argv fdt0 fd :
  fd ≠ redirected env → fd ≠ (pipe_fds_of env).1 → fd ≠ (pipe_fds_of env).2 →
  (run v env argv fdt0).2 !! fd = fdt0 !! fd.
Proof.
  intros H1 H2 H3. destruct v.
  - unfold run, run_main. by rewrite netstat_run, ended_launch.
  - unfold run, run_main. by rewrite docker_stats_run, ended_launch.
  - destruct (proc_fd_kinds env argv fdt0)
      as [[_ ->]|[[_ ->]|[[_ ->]|(_ & l & reads & path & args & _ & _ & ->)]]];
      [done..|].
    unfold past_builder, observe. cbn [fst snd locals fds trace].
    by apply compose_fds_other.
Qed.

Lemma X9_other_descriptors_witness :
  (run ProcFd env_ok ["elevated_proc_fd"; "1234"] stdio).2 !! 2%Z = stdio !! 2%Z.
Proof.
  apply (X9_other_descriptors_are_passed_on ProcFd env_ok ["elevated_proc_fd"; "1234"]
           stdio 2).
  - vm_compute. lia.
  - vm_compute. lia.
  - vm_compute. lia.
Defined.

(** ** Capabilities asked for *)

Lemma ambient_trace_calls env cs :
  Forall (λ e, (∃ c, e = EvAmbientRaise c) ∨ e = EvPrintf ("Fail!" +:+ LF))
    (ambient_trace env cs).
Proof.
  induction cs as [|c cs IH]; simpl; [done|].
  constructor; [eauto|]. case_decide; [|done]. constructor; [by right|constructor].
Qed.

Lemma raised_app t u : raised (t ++ u) = raised t ++ raised u.
Proof. apply omap_app. Qed.

Lemma raised_none t : Forall (λ e, is_raise e = false) t → raised t = [].
Proof.
  induction 1 as [|e t He _ IH]; [done|]. unfold raised in *. csimpl.
  rewrite IH. by destruct e.
Qed.

Lemma raised_ambient_trace env cs : raised (ambient_trace env cs) `prefix_of` cs.
Proof.
  induction cs as [|c cs IH]; [done|]. simpl. unfold raised in *. csimpl.
  case_decide.
  - csimpl. apply prefix_cons, prefix_nil.
  - by apply prefix_cons.
Qed.

Lemma raised_ambient_trace_granted env cs :
  Forall (granted env) cs → raised (ambient_trace env cs) = cs.
Proof.
  intros Hg. rewrite ambient_trace_granted by done.
  induction cs as [|c cs IH]; [done|]. unfold raised in *. csimpl.
  apply Forall_cons in Hg as [_ Hg]. by rewrite IH.
Qed.

Lemma raised_elevate_trace env cs :
  raised (elevate_trace env cs) = raised (ambient_trace env cs).
Proof. done. Qed.

(** X10: no proxy asks for a capability outside the pair of its variant.
    The capabilities a run tries to raise are an initial part of that
    pair, in order and without repetition; the only [cap_set_flag] call a
    run makes sets exactly that pair in the inheritable set; and a run
    that reaches [execv] on a kernel that grants every raise has raised
    the whole pair. *)
Theorem X10_only_the_variants_capabilities v env argv fdt0 :
  let t := (run v env argv fdt0).1.2 in
  raised t `prefix_of` caps_of v ∧
  (∀ flag cs val, EvCapSetFlag flag cs val ∈ t →
     flag = CAP_INHERITABLE ∧ cs = caps_of v ∧ val = CAP_SET) ∧
  (Forall (granted env) (caps_of v) → Exists (λ e, is_execv e = true) t →
   raised t = caps_of v).
Proof.
  cbv zeta. destruct (run_shape v env argv fdt0) as [[Hearly _]|Hreach].
  { split_and!.
    - rewrite raised_none; [apply prefix_nil|].
      eapply Forall_impl; [exact Hearly|]. intros [] []; done.
    - intros flag cs val Hin. rewrite Forall_forall in Hearly.
      by destruct (Hearly _ Hin).
    - intros _ Hex. apply Exists_exists in Hex as (e & Hin & He).
      rewrite Forall_forall in Hearly. destruct (Hearly _ Hin). by destruct e. }
  destruct Hreach as (reads & wiring & path & vector & args & _ & -> & Hr & Hw & _).
  assert (raised (reads ++ elevate_trace env (caps_of v) ++ wiring ++
                  [EvExecv path vector args]) = raised (ambient_trace env (caps_of v)))
    as Hraised.
  { rewrite !raised_app, raised_elevate_trace.
    rewrite (raised_none reads), (raised_none wiring).
    - by rewrite app_nil_r.
    - eapply Forall_impl; [exact Hw|]. intros [] []; done.
    - eapply Forall_impl; [exact Hr|]. intros []; done. }
  rewrite Hraised. split_and!.
  - apply raised_ambient_trace.
  - intros flag cs val Hin. rewrite !elem_of_app in Hin.
    destruct Hin as [Hin|[Hin|[Hin|Hin]]].
    + rewrite Forall_forall in Hr. by specialize (Hr _ Hin).
    + unfold elevate_trace in Hin. apply elem_of_app in Hin as [Hin|Hin].
      * apply elem_of_cons in Hin as [Hin|Hin]; [done|].
        apply elem_of_cons in Hin as [Hin|Hin].
        { injection Hin as -> -> ->. by destruct v. }
        repeat (apply elem_of_cons in Hin as [Hin|Hin]; [done|]).
        by apply elem_of_nil in Hin.
      * pose proof (ambient_trace_calls env (caps_of v)) as Hk.
        rewrite Forall_forall in Hk. by destruct (Hk _ Hin) as [[c ?]|?].
    + rewrite Forall_forall in Hw. by destruct (Hw _ Hin).
    + by apply list_elem_of_singleton in Hin.
  - intros Hg _. by apply raised_ambient_trace_granted.
Qed.

(** ** The failure message *)

Lemma ambient_trace_message env cs :
  (fail_message ∈ ambient_trace env cs ↔
   ∃ c, EvAmbientRaise c ∈ ambient_trace env cs ∧ ¬ granted env c) ∧
  length (filter (λ e, e = fail_message) (ambient_trace env cs)) ≤ 1.
Proof.
  induction cs as [|c cs [IH1 IH2]]; simpl.
  - split; [|simpl; lia]. split; [intros H; by apply elem_of_nil in H|].
    intros (c & H & _). by apply elem_of_nil in H.
  - rewrite filter_cons_False by done. case_decide as Hc.
    + split; [|simpl; lia]. split.
      * intros _. exists c. split; [left|done].
      * intros _. right. left.
    + split; [|done]. split.
      * intros Hin. apply elem_of_cons in Hin as [?|Hin]; [done|].
        apply IH1 in Hin as (c' & Hin & Hg). exists c'. split; [by right|done].
      * intros (c' & Hin & Hg). right. apply IH1.
        apply elem_of_cons in Hin as [Heq|Hin].
        -- injection Heq as ->. destruct Hg. unfold granted.
           destruct (decide (ambient_raise env c = 0%Z)); [done|by destruct Hc].
        -- by exists c'.
Qed.

Lemma filter_quiet t : Forall quiet t → filter (λ e, e = fail_message) t = [].
Proof.
  induction 1 as [|e t [_ He] _ IH]; [done|]. by rewrite filter_cons_False.
Qed.

(** Every run is a stretch of quiet calls, the calls of [set_ambient_caps]
    on some capabilities, and quiet calls again. *)
Lemma run_around_raises v env argv fdt0 :
  ∃ pre cs post,
    (run v env argv fdt0).1.2 = pre ++ ambient_trace env cs ++ post ∧
    Forall quiet pre ∧ Forall quiet post.
Proof.
  assert (∀ reads l path args,
    Forall (λ e, is_arg e = true) reads →
    ∃ pre cs post,
      (observe (past_builder env l fdt0 reads path args)).1.2 =
        pre ++ ambient_trace env cs ++ post ∧
      Forall quiet pre ∧ Forall quiet post) as Hpast.
  { intros reads l path args Hr.
    exists ((EvArgc :: reads) ++
            [EvCapGetProc; EvCapSetFlag CAP_INHERITABLE
               (take 2 elevated_proc_fd.newcaps) CAP_SET; EvCapSetProc; EvCapFree]),
      elevated_proc_fd.newcaps, (compose_calls env ++ [branch_execv env l path args]).
    unfold past_builder, observe, elevate_trace. cbn [fst snd trace].
    split_and!; [by rewrite <- !app_assoc| |].
    - apply Forall_app. split; [|repeat constructor; done].
      constructor; [done|]. eapply Forall_impl; [exact Hr|]. by intros [].
    - apply Forall_app. split.
      + eapply Forall_impl; [apply compose_calls_wiring|]. by intros [] [].
      + constructor; [|done]. unfold branch_execv. by case_decide. }
  destruct v.
  - unfold run, run_main. rewrite netstat_run, ended_launch.
    eexists [EvCapGetProc; EvCapSetFlag _ _ _; EvCapSetProc; EvCapFree],
      elevated_netstat.newcaps, [_].
    split_and!; [done|repeat constructor; done..].
  - unfold run, run_main. rewrite docker_stats_run, ended_launch.
    eexists [EvCapGetProc; EvCapSetFlag _ _ _; EvCapSetProc; EvCapFree],
      elevated_docker_stats.newcaps, [_].
    split_and!; [done|repeat constructor; done..].
  - destruct (proc_fd_kinds env argv fdt0)
      as [[_ ->]|[[_ ->]|[[_ ->]|(_ & l & reads & path & args & Hr & _ & ->)]]].
    + exists [EvArgc; EvPrintf elevated_proc_fd.usage], [], [].
      split_and!; [done|repeat constructor; done|done].
    + exists [EvArgc; EvArgv 1], [], [].
      split_and!; [done|repeat constructor; done|done].
    + exists [EvArgc; EvArgv 1; EvArgv 1], [], [].
      split_and!; [done|repeat constructor; done|done].
    + by apply Hpast.
Qed.

(** X11: in every variant the message ["Fail!\n"] is printed when, and
    only when, the run made a raise the kernel refused, and it is printed
    at most once in a run. *)
Theorem X11_message_exactly_for_a_refused_raise v env argv fdt0 :
  let t := (run v env argv fdt0).1.2 in
  (fail_message ∈ t ↔ ∃ c, EvAmbientRaise c ∈ t ∧ ¬ granted env c) ∧
  length (filter (λ e, e = fail_message) t) ≤ 1.
Proof.
  cbv zeta.
  destruct (run_around_raises v env argv fdt0) as (pre & cs & post & -> & Hpre & Hpost).
  destruct (ambient_trace_message env cs) as [Hiff Hcount].
  assert (∀ t e, Forall quiet t → e ∈ t → is_raise e = false ∧ e ≠ fail_message) as Hq.
  { intros t e Ht Hin. rewrite Forall_forall in Ht. by apply Ht. }
  split.
  - rewrite !elem_of_app. split.
    + intros [Hin|[Hin|Hin]].
      * by destruct (Hq _ _ Hpre Hin).
      * apply Hiff in Hin as (c & Hin & Hg). exists c. rewrite !elem_of_app. eauto.
      * by destruct (Hq _ _ Hpost Hin).
    + intros (c & Hin & Hg). rewrite !elem_of_app in Hin.
      destruct Hin as [Hin|[Hin|Hin]].
      * by destruct (Hq _ _ Hpre Hin).
      * right. left. apply Hiff. eauto.
      * by destruct (Hq _ _ Hpost Hin).
  - rewrite !filter_app, !length_app.
    rewrite (filter_quiet pre), (filter_quiet post) by done. simpl. lia.
Qed.

(** ** How a run ends *)

Lemma filter_execv_none t :
  Forall (λ e, is_execv e = false) t → filter (λ e, is_execv e = true) t = [].
Proof.
  induction 1 as [|e t He _ IH]; [done|]. rewrite filter_cons_False; [done|congruence].
Qed.

(** X12: no run calls [execv] more than once, and an [execv] call is the
    last call of its run, whether the image is replaced or the call
    comes back. *)
Theorem X12_one_execv_and_nothing_after v env argv fdt0 :
  let t := (run v env argv fdt0).1.2 in
  filter (λ e, is_execv e = true) t = [] ∨
  ∃ e, filter (λ e, is_execv e = true) t = [e] ∧ last t = Some e.
Proof.
  cbv zeta. destruct (run_shape v env argv fdt0) as [[Hearly _]|Hreach].
  - left. apply filter_execv_none. eapply Forall_impl; [exact Hearly|].
    intros [] []; done.
  - right. destruct Hreach as (reads & wiring & path & vector & args & _ & -> & Hr & Hw & _).
    exists (EvExecv path vector args). split.
    + rewrite !filter_app.
      rewrite (filter_execv_none reads), (filter_execv_none wiring),
        (filter_execv_none (elevate_trace _ _)); [done| | |].
      * eapply Forall_impl; [apply elevate_trace_kinds|]. intros [] []; done.
      * eapply Forall_impl; [exact Hw|]. by intros ? [].
      * eapply Forall_impl; [exact Hr|]. by intros [].
    + by rewrite !app_assoc, last_snoc.
Qed.

(** X13: the ways a proxy can end.  If its image is replaced, the new
    program is one of the fixed binaries of the variant, whatever the
    arguments, and it gets the descriptor table the run left.  If the
    proxy exits, the status is 0, after an [execv] of such a binary that
    failed, or 255, for the fd-count proxy without an argument list.  The
    faults are those of the fd-count proxy: the null pointer behind a
    lone program name, and the path array overrun; the netstat and
    docker-stats proxies have none. *)
Theorem X13_ways_to_end v env argv fdt0 :
  let r := run v env argv fdt0 in
  match r.1.1 with
  | Replaced path args fdt =>
      path ∈ targets v ∧ execv_ok env path = true ∧ fdt = r.2
  | Exited s =>
      (s = 0%Z ∧ ∃ path, path ∈ targets v ∧ execv_ok env path = false) ∨
      (s = 255%Z ∧ v = ProcFd ∧ argv = [])
  | Undefined f =>
      v = ProcFd ∧
      ((f = NullDereference ∧ length argv = 1) ∨
       (f = BufferOverflow BprocFDParam ∧ 2 ≤ length argv))
  end.
Proof.
  cbv zeta.
  assert (∀ l reads path args,
    path = "/bin/ls" ∨ path = "/usr/bin/lsof" →
    match (observe (past_builder env l fdt0 reads path args)).1.1 with
    | Replaced p a fdt =>
        p ∈ targets ProcFd ∧ execv_ok env p = true ∧
        fdt = (observe (past_builder env l fdt0 reads path args)).2
    | Exited s =>
        (s = 0%Z ∧ ∃ p, p ∈ targets ProcFd ∧ execv_ok env p = false) ∨
        (s = 255%Z ∧ ProcFd = ProcFd ∧ argv = [])
    | Undefined f => False
    end) as Hpast.
  { intros l reads path args Hpath.
    assert (path ∈ targets ProcFd) as Hin.
    { destruct Hpath as [-> | ->]; simpl; [left|right; left]. }
    assert ("/usr/bin/wc" ∈ targets ProcFd) as Hwc by (simpl; do 2 right; left).
    unfold past_builder, observe, branch_outcome. cbn [fst snd fds].
    case_decide.
    - destruct (execv_ok env path) eqn:E; [done|]. left. eauto.
    - destruct (execv_ok env "/usr/bin/wc") eqn:E; [done|]. left. eauto. }
  destruct v.
  - unfold run, run_main. rewrite netstat_run, ended_launch. cbn [observe fst snd fds log].
    destruct (execv_ok env "/bin/netstat") eqn:E.
    + split_and!; [simpl; left|done|done].
    + left. split; [done|]. exists "/bin/netstat". split; [simpl; left|done].
  - unfold run, run_main. rewrite docker_stats_run, ended_launch.
    cbn [observe fst snd fds log].
    destruct (execv_ok env "/usr/bin/docker") eqn:E.
    + split_and!; [simpl; left|done|done].
    + left. split; [done|]. exists "/usr/bin/docker". split; [simpl; left|done].
  - destruct (proc_fd_kinds env argv fdt0)
      as [[-> ->]|[[Hl ->]|[[Hl ->]|(Hl & l & reads & path & args & _ & Hpath & ->)]]].
    + by right.
    + split; [done|]. by left.
    + split; [done|]. by right.
    + pose proof (Hpast l reads path args Hpath) as Hx.
      destruct ((observe (past_builder env l fdt0 reads path args)).1.1); [done| |done].
      destruct Hx as [?|(-> & _ & ->)]; [by left|by right].
Qed.

(** X14: the netstat and docker-stats proxies make no call but those of
    the capability block, the failure message and one [execv]: they
    create no pipe, do not fork, touch no descriptor, and hand the
    caller's descriptor table on unchanged. *)
Theorem X14_single_command_proxies_only_elevate_and_exec v env argv fdt0 :
  single_command v →
  let r := run v env argv fdt0 in
  r.2 = fdt0 ∧
  ∃ path vector args,
    r.1.2 = elevate_trace env (caps_of v) ++ [EvExecv path vector args] ∧
    targets v = [path] ∧
    Forall (λ e, is_cap e = true ∨ e = fail_message) (elevate_trace env (caps_of v)).
Proof.
  assert (∀ cs, Forall (λ e, is_cap e = true ∨ e = fail_message) (elevate_trace env cs))
    as Hel.
  { intros cs. unfold elevate_trace. apply Forall_app. split; [repeat constructor; by left|].
    eapply Forall_impl; [apply ambient_trace_calls|].
    intros e [[c ->]| ->]; [by left|by right]. }
  intros [-> | ->]; cbv zeta; unfold run, run_main.
  - rewrite netstat_run, ended_launch. split; [done|].
    by exists "/bin/netstat", elevated_netstat.param, ["netstat"; "-tnap"].
  - rewrite docker_stats_run, ended_launch. split; [done|].
    by exists "/usr/bin/docker", elevated_docker_stats.param,
      ["docker"; "stats"; "--no-stream"; "--format"; elevated_docker_stats.format].
Qed.

Lemma X14_single_command_witness :
  let r := run DockerStats env_refused ["x"; "y"] stdio in
  r.2 = stdio ∧
  ∃ path vector args,
    r.1.2 = elevate_trace env_refused (caps_of DockerStats) ++ [EvExecv path vector args] ∧
    targets DockerStats = [path] ∧
    Forall (λ e, is_cap e = true ∨ e = fail_message)
      (elevate_trace env_refused (caps_of DockerStats)).
Proof.
  apply (X14_single_command_proxies_only_elevate_and_exec DockerStats env_refused
           ["x"; "y"] stdio).
  right. reflexivity.
Defined.
